(** * Bot hosting platform: the in-memory store and the bot manager of [app.py]

    A shallow embedding of the two classes of [src/app.py], [MemoryStorage]
    and [BotManager], and of the endpoints that read them, followed by the
    properties of the specification that were checked against them.

    Conventions of the embedding.
    - A Python [dict] is a finite map ([gmap]); the properties below only
      concern membership, so the enumeration order of the map stands for
      the insertion order of the dictionary.
    - A Python [str] is a [string], a sequence of characters.
    - [time.time()] is an explicit argument [now] of every operation that
      reads the clock; instants are integers (clock ticks), only their order
      and sums are used.
    - A method that mutates [self] takes the state and returns the new
      state next to its result.
    - What the telegram library and the operating system decide (whether a
      running application can be torn down, whether a thread can be
      started, whether a bot connects) is an explicit boolean or optional
      argument of the operation that depends on it. *)

From Stdlib Require Import ZArith String Ascii List Lia Bool.
From stdpp Require Import base gmap strings list fin_maps.
Import ListNotations.

Local Open Scope Z_scope.
Local Open Scope string_scope.

(** ** Strings *)

(** [p in s] of Python: [p] occurs in [s] as a contiguous block. *)
Fixpoint contains (p s : string) : bool :=
  String.prefix p s ||
  match s with
  | EmptyString => false
  | String _ s' => contains p s'
  end.

(** [s.split(sep)] for a one-character separator. *)
Fixpoint split (sep : ascii) (s : string) : list string :=
  match s with
  | EmptyString => [EmptyString]
  | String c s' =>
      if Ascii.eqb c sep then EmptyString :: split sep s'
      else match split sep s' with
           | seg :: rest => String c seg :: rest
           | [] => [String c EmptyString]
           end
  end.

(** [c in s] for one character. *)
Fixpoint has_char (c : ascii) (s : string) : bool :=
  match s with
  | EmptyString => false
  | String a s' => Ascii.eqb a c || has_char c s'
  end.

(** [s[:n]] *)
Definition take_str (n : nat) (s : string) : string := String.substring 0 n s.

Definition colon : ascii := ":"%char.

(** ** Stored values *)

(** The objects the program stores: [None], numbers (the counter and the
    clock readings) and strings (bot code, status words, JSON text). *)
Inductive value : Type :=
  | VNone
  | VNum (n : Z)
  | VStr (s : string).

#[global] Instance value_eq_dec : EqDecision value.
Proof. solve_decision. Defined.

(** The counters of [MemoryStorage.stats]. *)
Record Stats : Type := mkStats {
  bots_created : Z;
  bots_active : Z;
  memory_usage : Z;
  last_cleanup : Z
}.

(** ** class MemoryStorage *)

Module MemoryStorage.

Record t : Type := mk {
  data : gmap string value;
  expiry : gmap string Z;
  stats : Stats
}.

(** [__init__] *)
Definition init (now : Z) : t :=
  {| data := ∅; expiry := ∅;
     stats := {| bots_created := 0; bots_active := 0;
                 memory_usage := 0; last_cleanup := now |} |}.

(** [set(key, value, ttl)]; [ttl = None] is the default. The test [if ttl:]
    holds for a number other than zero. The method returns [True]. *)
Definition set (s : t) (key : string) (v : value) (ttl : option Z) (now : Z) : t :=
  {| data := <[key := v]> (data s);
     expiry := match ttl with
               | Some n => if Z.eqb n 0 then expiry s else <[key := now + n]> (expiry s)
               | None => expiry s
               end;
     stats := stats s |}.

(** [delete(key)]: both [pop]s have a default, so a missing key is fine. *)
Definition delete (s : t) (key : string) : t :=
  {| data := base.delete key (data s);
     expiry := base.delete key (expiry s);
     stats := stats s |}.

(** The test of [get]: [key in self.expiry and time.time() > self.expiry[key]]. *)
Definition expired (s : t) (key : string) (now : Z) : bool :=
  match expiry s !! key with
  | Some e => Z.ltb e now
  | None => false
  end.

(** [get(key, default)] *)
Definition get (s : t) (key : string) (dflt : value) (now : Z) : value * t :=
  if expired s key now then (dflt, delete s key)
  else (default dflt (data s !! key), s).

(** [keys(pattern)] *)
Definition keys (s : t) (pattern : string) : list string :=
  let ks := (map_to_list (data s)).*1 in
  if String.eqb pattern "*" then ks
  else List.filter (fun k => contains pattern k) ks.

(** [exists(key)] *)
Definition exists_ (s : t) (key : string) : bool :=
  bool_decide (is_Some (data s !! key)).

Section Incr.

(** [int(x)] on a string parses a numeral or raises; the parser is a
    parameter of the development. *)
Variable str_int : string -> option Z.

Definition py_int (v : value) : option Z :=
  match v with
  | VNone => None
  | VNum n => Some n
  | VStr s => str_int s
  end.

(** First statement of [incr]: [val = int(self.get(key, 0))]; [None] when
    [int] raises. *)
Definition incr_read (s : t) (key : string) (now : Z) : option Z * t :=
  let '(v, s1) := get s key (VNum 0) now in (py_int v, s1).

(** Second statement of [incr]: [self.set(key, val + 1)]. *)
Definition incr_write (s : t) (key : string) (val : Z) (now : Z) : t :=
  set s key (VNum (val + 1)) None now.

(** [incr(key)]: the two statements in sequence; the result is [val + 1]. *)
Definition incr (s : t) (key : string) (now : Z) : option Z * t :=
  match incr_read s key now with
  | (Some val, s1) => (Some (val + 1), incr_write s1 key val now)
  | (None, s1) => (None, s1)
  end.

End Incr.

(** [cleanup_expired()] *)
Definition cleanup_expired (s : t) (now : Z) : nat * t :=
  let old := (List.filter (fun kv => Z.ltb kv.2 now) (map_to_list (expiry s))).*1 in
  let s1 := fold_left delete old s in
  (length old,
   {| data := data s1; expiry := expiry s1;
      stats := {| bots_created := bots_created (stats s1);
                  bots_active := bots_active (stats s1);
                  memory_usage := memory_usage (stats s1);
                  last_cleanup := now |} |}).

(** Every key with an expiry instant is a key of [data]. *)
Definition well_formed (s : t) : Prop :=
  dom (expiry s) ⊆ dom (data s).

(** [s'] is [s] with some of the keys that are expired at [now] dropped:
    what reads through [get] do to the store. *)
Definition swept (now : Z) (s s' : t) : Prop :=
  stats s' = stats s /\
  forall k,
    (data s' !! k = data s !! k /\ expiry s' !! k = expiry s !! k) \/
    (expired s k now = true /\ data s' !! k = None /\ expiry s' !! k = None).

End MemoryStorage.

(** ** Keys of a bot's record *)

Definition bot_key (token field : string) : string :=
  "bot:" ++ token ++ ":" ++ field.

Definition status_key (token : string) : string := bot_key token "status".

Definition counter_key : string := "stats:bots_created".

(** ** class BotManager *)

Module BotManager.

(** The coroutine [run_bot] that [start_bot] schedules on a fresh event loop
    and thread. It is [Scheduled] until [create_bot_instance] returns,
    [Running] while it sleeps in [while token in self.bots], [Finished] once
    it has left its body and [Cancelled] after [Task.cancel()]. *)
Inductive task_state : Type := Scheduled | Running | Finished | Cancelled.

Record task : Type := mkTask {
  task_token : string;
  task_code : string;
  task_status : task_state
}.

(** The manager with the module-level [storage] it works on. [bots] maps a
    token to its application object (an identifier), [bot_tasks] maps a
    token to a task, named by its position in [tasks], the tasks created so
    far. *)
Record t : Type := mk {
  bots : gmap string nat;
  bot_tasks : gmap string nat;
  tasks : list task;
  storage : MemoryStorage.t
}.

Definition init (now : Z) : t :=
  {| bots := ∅; bot_tasks := ∅; tasks := []; storage := MemoryStorage.init now |}.

Definition with_storage (m : t) (st : MemoryStorage.t) : t :=
  {| bots := bots m; bot_tasks := bot_tasks m; tasks := tasks m; storage := st |}.

Definition set_status (m : t) (token word : string) (now : Z) : t :=
  with_storage m (MemoryStorage.set (storage m) (status_key token) (VStr word) None now).

(** [Task.cancel()]: no effect on a task that is done. *)
Definition cancel (tk : task) : task :=
  match task_status tk with
  | Scheduled | Running =>
      {| task_token := task_token tk; task_code := task_code tk;
         task_status := Cancelled |}
  | Finished | Cancelled => tk
  end.

Definition cancel_task (ts : list task) (i : nat) : list task :=
  match ts !! i with
  | Some tk => <[i := cancel tk]> ts
  | None => ts
  end.

(** A task that still occupies its thread. *)
Definition live (tk : task) : bool :=
  match task_status tk with
  | Scheduled | Running => true
  | Finished | Cancelled => false
  end.

Definition live_tasks (m : t) (token : string) : list task :=
  List.filter (fun tk => String.eqb (task_token tk) token && live tk) (tasks m).

(** [stop_bot(token)], for a call whose teardown comes to an end.
    [teardown_ok] tells whether the two [asyncio.run] calls on the
    application return; when one raises, the bare [except] takes over.
    Both ways the status is written and [True] returned. A teardown that
    never returns is the third case of [stop_bot_call] below. *)
Definition stop_bot (m : t) (token : string) (now : Z) (teardown_ok : bool) : bool * t :=
  match bots m !! token with
  | Some _ =>
      if teardown_ok then
        let m1 :=
          {| bots := base.delete token (bots m);
             bot_tasks := base.delete token (bot_tasks m);
             tasks := match bot_tasks m !! token with
                      | Some i => cancel_task (tasks m) i
                      | None => tasks m
                      end;
             storage := storage m |} in
        (true, set_status m1 token "stopped" now)
      else (true, set_status m token "stopped" now)
  | None => (true, set_status m token "stopped" now)
  end.

Section WithInt.

Variable str_int : string -> option Z.

(** [start_bot(token, code)]. [spawn_ok] tells whether the creation of the
    event loop, the task and the thread goes through; when it raises, or
    when [incr] raises, the [except] branch writes the status [error] and
    returns [False]. *)
Definition start_bot (m : t) (token code : string) (now : Z)
    (teardown_ok spawn_ok : bool) : bool * t :=
  let m1 := match bots m !! token with
            | Some _ => (stop_bot m token now teardown_ok).2
            | None => m
            end in
  let st1 := MemoryStorage.set (storage m1) (bot_key token "code") (VStr code) None now in
  let st2 := MemoryStorage.set st1 (status_key token) (VStr "active") None now in
  let st3 := MemoryStorage.set st2 (bot_key token "last_active") (VNum now) None now in
  let st4 := MemoryStorage.set st3 (bot_key token "created_at") (VNum now) None now in
  match MemoryStorage.incr str_int st4 counter_key now with
  | (None, st5) => (false, set_status (with_storage m1 st5) token "error" now)
  | (Some _, st5) =>
      if spawn_ok then
        (true,
         {| bots := bots m1;
            bot_tasks := <[token := length (tasks m1)]> (bot_tasks m1);
            tasks := tasks m1 ++ [ {| task_token := token; task_code := code;
                                      task_status := Scheduled |} ];
            storage := st5 |})
      else (false, set_status (with_storage m1 st5) token "error" now)
  end.

End WithInt.

(** One turn of the coroutine [run_bot] of task [i]. A scheduled task
    awaits [create_bot_instance], whose result is [launch]: the application
    object, or [None] after any failure (a wrong token, code that does not
    compile, no network). A running task leaves its loop once its token is
    gone from [self.bots]. *)
Definition run_bot (m : t) (i : nat) (launch : option nat) (now : Z) : t :=
  match tasks m !! i with
  | None => m
  | Some tk =>
      let finished := {| task_token := task_token tk; task_code := task_code tk;
                         task_status := Finished |} in
      match task_status tk with
      | Scheduled =>
          match launch with
          | Some app =>
              {| bots := <[task_token tk := app]> (bots m);
                 bot_tasks := bot_tasks m;
                 tasks := <[i := {| task_token := task_token tk;
                                    task_code := task_code tk;
                                    task_status := Running |}]> (tasks m);
                 storage := storage m |}
          | None =>
              set_status
                {| bots := bots m; bot_tasks := bot_tasks m;
                   tasks := <[i := finished]> (tasks m); storage := storage m |}
                (task_token tk) "error" now
          end
      | Running =>
          match bots m !! task_token tk with
          | Some _ => m
          | None =>
              {| bots := bots m; bot_tasks := bot_tasks m;
                 tasks := <[i := finished]> (tasks m); storage := storage m |}
          end
      | Finished | Cancelled => m
      end
  end.

(** [delete_bot(token)] *)
Definition delete_bot (m : t) (token : string) (now : Z) (teardown_ok : bool) : bool * t :=
  let m1 := (stop_bot m token now teardown_ok).2 in
  let ks := MemoryStorage.keys (storage m1) (bot_key token "*") in
  let st1 := fold_left MemoryStorage.delete ks (storage m1) in
  let st2 := MemoryStorage.delete st1 ("webhook:" ++ token) in
  (true, with_storage m1 st2).

(** The dictionary returned by [get_bot_info]. *)
Record bot_info : Type := mkInfo {
  info_status : value;
  info_created_at : value;
  info_last_active : value;
  info_memory_used : value;
  info_is_running : bool
}.

(** [get_bot_info(token)]; the four reads go through [get], so they can
    sweep expired keys. *)
Definition get_bot_info (m : t) (token : string) (now : Z) : bot_info * t :=
  let '(st, s1) := MemoryStorage.get (storage m) (status_key token) (VStr "not_found") now in
  let '(ca, s2) := MemoryStorage.get s1 (bot_key token "created_at") VNone now in
  let '(la, s3) := MemoryStorage.get s2 (bot_key token "last_active") VNone now in
  let '(mu, s4) := MemoryStorage.get s3 (bot_key token "memory") (VNum 0) now in
  ({| info_status := st; info_created_at := ca; info_last_active := la;
      info_memory_used := mu;
      info_is_running := bool_decide (is_Some (bots m !! token)) |},
   with_storage m s4).

(** One entry of the list returned by [get_all_bots]. *)
Record summary : Type := mkSummary {
  sum_token : string;
  sum_status : value;
  sum_created_at : value
}.

(** [token[:10] + "..."] *)
Definition mask (token : string) : string := take_str 10 token ++ "...".

(** The body of the loop of [get_all_bots] over the keys found. The result
    is [None] when [key.split(":")[1]] raises [IndexError]. *)
Fixpoint all_bots_loop (ks : list string) (st : MemoryStorage.t) (now : Z)
    : option (list summary) * MemoryStorage.t :=
  match ks with
  | [] => (Some [], st)
  | key :: rest =>
      match split colon key !! 1%nat with
      | None => (None, st)
      | Some token =>
          let '(status, st1) := MemoryStorage.get st key VNone now in
          let '(created, st2) :=
            MemoryStorage.get st1 (bot_key token "created_at") VNone now in
          let '(r, st3) := all_bots_loop rest st2 now in
          (cons {| sum_token := mask token; sum_status := status;
                   sum_created_at := created |} <$> r, st3)
      end
  end.

(** [get_all_bots()] *)
Definition get_all_bots (m : t) (now : Z) : option (list summary) * t :=
  let '(r, st) :=
    all_bots_loop (MemoryStorage.keys (storage m) "bot:*:status") (storage m) now in
  (r, with_storage m st).

(** What the two [asyncio.run] calls of [stop_bot] can do with the
    application of a bot: return, raise, or never return (the application
    was started on the event loop of another thread, and nothing in
    [stop_bot] bounds the wait). *)
Inductive teardown : Type :=
  | TeardownReturns
  | TeardownRaises
  | TeardownBlocks.



(** [last_active < cutoff] in [cleanup_memory]: Python orders numbers and
    raises [TypeError] for [None] or a string against a number. *)
Definition py_lt (v : value) (x : Z) : option bool :=
  match v with
  | VNum n => Some (Z.ltb n x)
  | VNone | VStr _ => None
  end.

(** The first loop of [cleanup_memory]: the tokens of [self.bots] whose
    [last_active], read with the default 0, is below the cutoff; [None]
    when the comparison raises. *)
Fixpoint inactive_bots (tokens : list string) (st : MemoryStorage.t)
    (cutoff now : Z) : option (list string) * MemoryStorage.t :=
  match tokens with
  | [] => (Some [], st)
  | token :: rest =>
      let '(last, st1) :=
        MemoryStorage.get st (bot_key token "last_active") (VNum 0) now in
      match py_lt last cutoff with
      | None => (None, st1)
      | Some idle =>
          let '(r, st2) := inactive_bots rest st1 cutoff now in
          ((fun l => if idle then token :: l else l) <$> r, st2)
      end
  end.

(** The second loop of [cleanup_memory]; [teardown] tells, token by token,
    whether the teardown inside [stop_bot] goes through. *)
Definition stop_all (m : t) (tokens : list string) (now : Z)
    (teardown : string -> bool) : t :=
  fold_left (fun acc token => (stop_bot acc token now (teardown token)).2) tokens m.

(** [cleanup_memory()]. [mem] is the resident memory that [psutil] reports,
    rounded, or [None] when [psutil] raises. Any exception ends the pass
    with [False]. *)
Definition cleanup_memory (m : t) (now : Z) (teardown : string -> bool)
    (mem : option Z) : bool * t :=
  let cutoff := now - 3600 in
  match inactive_bots (map_to_list (bots m)).*1 (storage m) cutoff now with
  | (None, st1) => (false, with_storage m st1)
  | (Some idle, st1) =>
      let m1 := stop_all (with_storage m st1) idle now teardown in
      let st2 := (MemoryStorage.cleanup_expired (storage m1) now).2 in
      match mem with
      | None => (false, with_storage m1 st2)
      | Some mb =>
          (true,
           with_storage m1
             {| MemoryStorage.data := MemoryStorage.data st2;
                MemoryStorage.expiry := MemoryStorage.expiry st2;
                MemoryStorage.stats :=
                  {| bots_created := bots_created (MemoryStorage.stats st2);
                     bots_active := Z.of_nat (size (bots m1));
                     memory_usage := mb;
                     last_cleanup := last_cleanup (MemoryStorage.stats st2) |} |})
      end
  end.

(** The body of the loop of [ping_active_bots] for one token: the write of
    [last_active], then the read of the status, whose result is unused. *)
Definition ping_bot (st : MemoryStorage.t) (token : string) (now : Z)
    : MemoryStorage.t :=
  let st1 := MemoryStorage.set st (bot_key token "last_active") (VNum now) None now in
  (MemoryStorage.get st1 (status_key token) VNone now).2.

(** [ping_active_bots()] *)
Definition ping_active_bots (m : t) (now : Z) : t :=
  with_storage m
    (fold_left (fun st token => ping_bot st token now)
       (map_to_list (bots m)).*1 (storage m)).

End BotManager.

(** ** Endpoints *)

(** The fields of [/api/stats] that come from the state. *)
Record stats_view : Type := mkStatsView {
  sv_bots_created : Z;
  sv_bots_active : nat;
  sv_storage_items : nat
}.

(** [get_stats()] *)
Definition get_stats (m : BotManager.t) : stats_view :=
  {| sv_bots_created := bots_created (MemoryStorage.stats (BotManager.storage m));
     sv_bots_active := size (BotManager.bots m);
     sv_storage_items := size (MemoryStorage.data (BotManager.storage m)) |}.

(** [upload_bot()], on the token and the code of the request after
    [.strip()] (a request without these two texts raises and is answered
    with a failure before anything is written). The test
    [token.startswith('')] always holds, so the token is refused when it is
    empty or has no colon, the code when it is empty. The result is the
    field [success] of the answer. *)
Definition upload_bot (str_int : string -> option Z) (m : BotManager.t)
    (token code : string) (now : Z) (teardown_ok spawn_ok : bool)
    : bool * BotManager.t :=
  if String.eqb token "" || String.eqb code "" then (false, m)
  else if negb (has_char colon token) then (false, m)
  else BotManager.start_bot str_int m token code now teardown_ok spawn_ok.

(** [webhook_handler(token)]. [body] is the text [json.dumps] makes of the
    body of the request, or [None] when [request.json] raises, which the
    handler catches. The result is the field [ok] of the answer. *)
Definition webhook_handler (m : BotManager.t) (token : string)
    (body : option string) (now : Z) : bool * BotManager.t :=
  let '(status, st1) :=
    MemoryStorage.get (BotManager.storage m) (status_key token) VNone now in
  if bool_decide (status = VStr "active") then
    let st2 := MemoryStorage.set st1 (bot_key token "last_active") (VNum now) None now in
    match body with
    | Some update =>
        let st3 := MemoryStorage.set st2 (bot_key token "last_update") (VStr update)
                     (Some 300) now in
        (true, BotManager.with_storage m st3)
    | None => (false, BotManager.with_storage m st2)
    end
  else (false, BotManager.with_storage m st1).

(** ** Callers of [incr] on separate threads *)

(** [incr] takes no lock, so a thread switch can fall between its two
    statements. A caller is [Pending] before its first statement, [Loaded
    val] between the two, [Returned r] after the second and [Raised] when
    [int] failed. A schedule lists, step by step, the caller that runs its
    next statement and the clock reading at that step. *)
Module Interleaving.

Inductive call : Type :=
  | Pending
  | Loaded (val : Z)
  | Returned (r : Z)
  | Raised.

Section WithInt.

Variable str_int : string -> option Z.
Variable key : string.

Definition step (c : MemoryStorage.t * list call) (x : nat * Z)
    : MemoryStorage.t * list call :=
  let '(s, calls) := c in
  let '(i, now) := x in
  match calls !! i with
  | Some Pending =>
      match MemoryStorage.incr_read str_int s key now with
      | (Some val, s1) => (s1, <[i := Loaded val]> calls)
      | (None, s1) => (s1, <[i := Raised]> calls)
      end
  | Some (Loaded val) =>
      (MemoryStorage.incr_write s key val now, <[i := Returned (val + 1)]> calls)
  | Some (Returned _) | Some Raised | None => c
  end.

Definition run (sched : list (nat * Z)) (c : MemoryStorage.t * list call)
    : MemoryStorage.t * list call :=
  fold_left step sched c.

(** The counter under [key] as [incr] reads it: no expiry instant, and the
    value [k], which is 0 while the key is absent. *)
Definition counter_is (s : MemoryStorage.t) (k : Z) : Prop :=
  MemoryStorage.expiry s !! key = None /\
  default (VNum 0) (MemoryStorage.data s !! key) = VNum k.

End WithInt.

(** The callers of [order] one after the other: each runs both statements
    (at the instants [t1] and [t2]) before the next one starts. *)
Definition serial (order : list (nat * (Z * Z))) : list (nat * Z) :=
  flat_map (fun x => [(x.1, x.2.1); (x.1, x.2.2)]) order.

(** Every caller of [0 .. n-1] reads, then every caller writes. *)
Definition reads_then_writes (n : nat) (now : Z) : list (nat * Z) :=
  map (fun i => (i, now)) (seq 0 n) ++ map (fun i => (i, now)) (seq 0 n).

End Interleaving.

(** A parser for the closed examples below: no string is a numeral. The
    examples never convert a string. *)
Definition no_numeral : string -> option Z := fun _ => None.

(** ** Runs of the program *)

(** What can happen to the manager: a call of one of its methods or of an
    endpoint, or a turn of a scheduled task. Each event carries the answers
    of the outside world that it depends on. *)
Inductive event : Type :=
  | Upload (token code : string) (teardown_ok spawn_ok : bool)
  | Start (token code : string) (teardown_ok spawn_ok : bool)
  | Stop (token : string) (teardown_ok : bool)
  | Delete (token : string) (teardown_ok : bool)
  | Info (token : string)
  | ListBots
  | TaskTurn (i : nat) (launch : option nat)
  | Ping
  | Cleanup (teardown : string -> bool) (mem : option Z)
  | Webhook (token : string) (body : option string).

Section Runs.

Variable str_int : string -> option Z.

Definition apply_event (m : BotManager.t) (x : Z * event) : BotManager.t :=
  let now := x.1 in
  match x.2 with
  | Upload token code td sp => (upload_bot str_int m token code now td sp).2
  | Start token code td sp => (BotManager.start_bot str_int m token code now td sp).2
  | Stop token td => (BotManager.stop_bot m token now td).2
  | Delete token td => (BotManager.delete_bot m token now td).2
  | Info token => (BotManager.get_bot_info m token now).2
  | ListBots => (BotManager.get_all_bots m now).2
  | TaskTurn i launch => BotManager.run_bot m i launch now
  | Ping => BotManager.ping_active_bots m now
  | Cleanup td mem => (BotManager.cleanup_memory m now td mem).2
  | Webhook token body => (webhook_handler m token body now).2
  end.

(** The state after the events of [evs], each with its clock reading,
    starting from the state of a fresh process. *)
Definition run_events (start : Z) (evs : list (Z * event)) : BotManager.t :=
  fold_left apply_event evs (BotManager.init start).

End Runs.

(** What the store satisfies in every state of a run: the keys with an
    expiry instant are keys of [data]; only keys [bot:T:last_update] have an
    expiry instant; the counter [bots_created] of [stats] is 0. *)
Definition store_sound (st : MemoryStorage.t) : Prop :=
  MemoryStorage.well_formed st /\
  (forall k, is_Some (MemoryStorage.expiry st !! k) ->
     exists T, k = bot_key T "last_update") /\
  bots_created (MemoryStorage.stats st) = 0.

(** An entry of [bot_tasks] names a task created for its token. *)
Definition tasks_sound (m : BotManager.t) : Prop :=
  forall T i, BotManager.bot_tasks m !! T = Some i ->
    exists tk, BotManager.tasks m !! i = Some tk /\ BotManager.task_token tk = T.

Definition consistent (m : BotManager.t) : Prop :=
  store_sound (BotManager.storage m) /\ tasks_sound m.

(** The events that reach the [incr] of [start_bot]: a direct call, and an
    upload that passes the checks. *)
Definition reaches_incr (e : event) : bool :=
  match e with
  | Start _ _ _ _ => true
  | Upload token code _ _ =>
      negb (String.eqb token "" || String.eqb code "") && has_char colon token
  | _ => false
  end.

Definition count_starts (evs : list (Z * event)) : nat :=
  length (List.filter (fun x => reaches_incr x.2) evs).

(** * Properties *)

(** ** The store *)

Section StoreFacts.

Import MemoryStorage.

Implicit Types (s : MemoryStorage.t) (key : string) (v dflt : value) (now : Z).

Lemma expired_spec s key now :
  expired s key now = true <-> exists e, expiry s !! key = Some e /\ e < now.
Proof.
  unfold expired. destruct (expiry s !! key) as [e|].
  - rewrite Z.ltb_lt. split; [eauto | intros (e' & [= <-] & ?); done].
  - split; [done | intros (? & ? & ?); done].
Qed.

(** The first branch of [get]: an expired key is dropped from both maps and
    the default comes back. *)
Lemma get_expired s key dflt now :
  expired s key now = true ->
  get s key dflt now = (dflt, delete s key) /\
  data (delete s key) !! key = None /\ expiry (delete s key) !! key = None.
Proof.
  intros H. unfold get. rewrite H. cbn. by rewrite !lookup_delete_eq.
Qed.

Lemma get_fresh s key dflt now :
  expired s key now = false ->
  get s key dflt now = (default dflt (data s !! key), s).
Proof. intros H. unfold get. by rewrite H. Qed.

(** [exists] and [keys] read [data] alone. *)
Lemma exists_spec s key : exists_ s key = true <-> is_Some (data s !! key).
Proof. unfold exists_. by rewrite bool_decide_eq_true. Qed.

Lemma keys_all_spec s key : key ∈ keys s "*" <-> is_Some (data s !! key).
Proof.
  unfold keys. cbn. rewrite list_elem_of_fmap. split.
  - intros ([k v] & -> & H). apply elem_of_map_to_list in H. eauto.
  - intros [v H]. exists (key, v). split; [done|]. by apply elem_of_map_to_list.
Qed.

Lemma keys_pattern_spec s pattern key :
  pattern <> "*" ->
  key ∈ keys s pattern <-> is_Some (data s !! key) /\ contains pattern key = true.
Proof.
  intros Hp. unfold keys.
  destruct (String.eqb_spec pattern "*") as [->|_]; [done|].
  rewrite list_elem_of_In, filter_In, <- list_elem_of_In.
  by rewrite <- (keys_all_spec s key).
Qed.

Lemma set_data_eq s key v ttl now : data (set s key v ttl now) !! key = Some v.
Proof. cbn. apply lookup_insert_eq. Qed.

Lemma set_data_ne s key key' v ttl now :
  key <> key' -> data (set s key v ttl now) !! key' = data s !! key'.
Proof. intros. cbn. by apply lookup_insert_ne. Qed.

Lemma set_no_ttl_expiry s key v now : expiry (set s key v None now) = expiry s.
Proof. done. Qed.

Lemma set_stats s key v ttl now : stats (set s key v ttl now) = stats s.
Proof. done. Qed.

Lemma delete_stats s key : stats (delete s key) = stats s.
Proof. done. Qed.

Lemma get_stats_unchanged s key dflt now : stats (get s key dflt now).2 = stats s.
Proof. unfold get. by destruct (expired s key now). Qed.

End StoreFacts.

(** C1. A key whose expiry instant has passed and that was not swept is
    dropped by [get], which returns the default, but it is still reported
    by [exists] and still listed by [keys]: the store [set("k", "v", ttl=1)]
    at instant 0, read at instant 2. *)
Lemma expired_key_seen_by_exists_and_keys :
  let s := MemoryStorage.set (MemoryStorage.init 0) "k" (VStr "v") (Some 1) 0 in
  MemoryStorage.expired s "k" 2 = true /\
  MemoryStorage.get s "k" VNone 2 = (VNone, MemoryStorage.delete s "k") /\
  MemoryStorage.exists_ s "k" = true /\
  MemoryStorage.keys s "*" = ["k"] /\
  MemoryStorage.keys s "k" = ["k"].
Proof. vm_compute. done. Qed.

(** C9, as stated: a key that carries an expiry instant from an earlier
    [set] keeps it through [set(key, value, 0)], and expires. *)
Lemma set_ttl_zero_keeps_earlier_expiry :
  let s1 := MemoryStorage.set (MemoryStorage.init 0) "k" (VStr "a") (Some 300) 0 in
  let s2 := MemoryStorage.set s1 "k" (VStr "b") (Some 0) 1 in
  MemoryStorage.expiry s2 !! "k" = Some 300 /\
  (MemoryStorage.get s2 "k" VNone 1000).1 = VNone /\
  MemoryStorage.exists_ (MemoryStorage.get s2 "k" VNone 1000).2 "k" = false.
Proof. vm_compute. done. Qed.

(** C9, amended. [set] with [ttl = 0] is [set] without [ttl], on every
    store: it writes the value and leaves every expiry instant as it is.
    On a key that carries no expiry instant the value then stays: [get]
    returns it at every instant and leaves the store as it is, [exists]
    holds and [keys] lists the key. On a key that carries the expiry
    instant [e] of an earlier call, that instant is kept: [get] returns the
    value up to [e] and, after [e], the default, and it drops the key. *)
Theorem set_ttl_zero_as_no_ttl (s : MemoryStorage.t) (key : string)
    (v dflt : value) (now later : Z) :
  let s' := MemoryStorage.set s key v (Some 0) now in
  s' = MemoryStorage.set s key v None now /\
  MemoryStorage.expiry s' = MemoryStorage.expiry s /\
  MemoryStorage.data s' !! key = Some v /\
  MemoryStorage.exists_ s' key = true /\
  key ∈ MemoryStorage.keys s' "*" /\
  (MemoryStorage.expiry s !! key = None ->
     MemoryStorage.expiry s' !! key = None /\
     MemoryStorage.get s' key dflt later = (v, s')) /\
  (forall e, MemoryStorage.expiry s !! key = Some e ->
     MemoryStorage.expiry s' !! key = Some e /\
     (later <= e -> MemoryStorage.get s' key dflt later = (v, s')) /\
     (e < later ->
        MemoryStorage.get s' key dflt later = (dflt, MemoryStorage.delete s' key) /\
        MemoryStorage.exists_ (MemoryStorage.get s' key dflt later).2 key = false)).
Proof.
  intros s'. assert (Hd : MemoryStorage.data s' !! key = Some v)
    by apply set_data_eq.
  assert (He' : MemoryStorage.expiry s' = MemoryStorage.expiry s) by done.
  split; [done|]. split; [done|]. split; [done|].
  split; [apply exists_spec; eauto|]. split; [apply keys_all_spec; eauto|]. split.
  - intros He. rewrite He'. split; [done|].
    rewrite get_fresh; [by rewrite Hd|].
    unfold MemoryStorage.expired. by rewrite He', He.
  - intros e He. rewrite He'. split; [done|]. split.
    + intros Hle. rewrite get_fresh; [by rewrite Hd|].
      unfold MemoryStorage.expired. rewrite He', He. apply Z.ltb_ge. lia.
    + intros Hlt.
      assert (Hx : MemoryStorage.expired s' key later = true).
      { unfold MemoryStorage.expired. rewrite He', He. by apply Z.ltb_lt. }
      destruct (get_expired s' key dflt later Hx) as (Hg & Hdd & _).
      rewrite Hg. split; [done|]. cbn [snd].
      unfold MemoryStorage.exists_. rewrite Hdd.
      apply bool_decide_eq_false. by intros [? ?].
Qed.

Lemma set_ttl_zero_as_no_ttl_witness :
  let s0 := MemoryStorage.init 0 in
  let s1 := MemoryStorage.set s0 "k" (VStr "a") (Some 300) 0 in
  MemoryStorage.get (MemoryStorage.set s0 "k" (VStr "b") (Some 0) 1) "k" VNone 1000
  = (VStr "b", MemoryStorage.set s0 "k" (VStr "b") (Some 0) 1) /\
  MemoryStorage.get (MemoryStorage.set s1 "k" (VStr "b") (Some 0) 1) "k" VNone 300
  = (VStr "b", MemoryStorage.set s1 "k" (VStr "b") (Some 0) 1) /\
  (MemoryStorage.get (MemoryStorage.set s1 "k" (VStr "b") (Some 0) 1) "k" VNone 301).1
  = VNone.
Proof.
  intros s0 s1.
  destruct (set_ttl_zero_as_no_ttl s0 "k" (VStr "b") VNone 1 1000)
    as (_ & _ & _ & _ & _ & H0 & _).
  destruct (set_ttl_zero_as_no_ttl s1 "k" (VStr "b") VNone 1 300)
    as (_ & _ & _ & _ & _ & _ & H1).
  destruct (set_ttl_zero_as_no_ttl s1 "k" (VStr "b") VNone 1 301)
    as (_ & _ & _ & _ & _ & _ & H2).
  split; [exact (proj2 (H0 eq_refl))|]. split.
  - apply (proj1 (proj2 (H1 300 eq_refl))). lia.
  - destruct (H2 300 eq_refl) as (_ & _ & H3). rewrite (proj1 (H3 ltac:(lia))).
    reflexivity.
Defined.

(** C10. [get] on a key without expiry instant, or whose expiry instant has
    not passed, returns the stored value (or the default) and leaves the
    store, its data map and its expiry map, unchanged. *)
Theorem get_unexpired_frame (s : MemoryStorage.t) (key : string)
    (dflt : value) (now : Z) :
  (MemoryStorage.expiry s !! key = None \/
   exists e, MemoryStorage.expiry s !! key = Some e /\ now <= e) ->
  (MemoryStorage.get s key dflt now).2 = s /\
  MemoryStorage.data (MemoryStorage.get s key dflt now).2 = MemoryStorage.data s /\
  MemoryStorage.expiry (MemoryStorage.get s key dflt now).2 = MemoryStorage.expiry s /\
  (MemoryStorage.get s key dflt now).1 = default dflt (MemoryStorage.data s !! key).
Proof.
  intros H.
  assert (Hx : MemoryStorage.expired s key now = false).
  { unfold MemoryStorage.expired.
    destruct H as [-> | (e & -> & Hle)]; [done|]. apply Z.ltb_ge. lia. }
  by rewrite get_fresh.
Qed.

Lemma get_unexpired_frame_witness :
  let s := MemoryStorage.set (MemoryStorage.init 0) "k" (VStr "v") (Some 5) 0 in
  (exists e, MemoryStorage.expiry s !! "k" = Some e /\ 3 <= e) /\
  (MemoryStorage.get s "k" VNone 3).2 = s.
Proof.
  intros s.
  assert (H : exists e, MemoryStorage.expiry s !! "k" = Some e /\ 3 <= e).
  { exists 5. split; [reflexivity | lia]. }
  split; [exact H|].
  exact (proj1 (get_unexpired_frame s "k" VNone 3 (or_intror H))).
Defined.

(** ** The manager *)

Section ManagerFacts.

Import BotManager.

Implicit Types (m : BotManager.t) (token code : string) (now : Z).

Lemma set_status_data m token word now :
  MemoryStorage.data (storage (set_status m token word now)) !! status_key token
  = Some (VStr word).
Proof. apply set_data_eq. Qed.



Lemma stop_bot_status m token now teardown_ok :
  MemoryStorage.data (storage (stop_bot m token now teardown_ok).2) !! status_key token
  = Some (VStr "stopped").
Proof.
  unfold stop_bot.
  destruct (bots m !! token); [destruct teardown_ok|]; apply set_status_data.
Qed.


(** The counters of [storage.stats] are out of reach of [stop_bot] and
    [start_bot]: they write [storage.data] only. *)
Lemma stop_bot_stats m token now teardown_ok :
  MemoryStorage.stats (storage (stop_bot m token now teardown_ok).2)
  = MemoryStorage.stats (storage m).
Proof.
  unfold stop_bot. destruct (bots m !! token); [destruct teardown_ok|]; done.
Qed.

Lemma incr_stats str_int (s : MemoryStorage.t) key now :
  MemoryStorage.stats (MemoryStorage.incr str_int s key now).2 = MemoryStorage.stats s.
Proof.
  unfold MemoryStorage.incr, MemoryStorage.incr_read.
  pose proof (get_stats_unchanged s key (VNum 0) now) as H.
  destruct (MemoryStorage.get s key (VNum 0) now) as [v s1]. cbn in H.
  by destruct (MemoryStorage.py_int str_int v).
Qed.

Lemma start_bot_stats str_int m token code now teardown_ok spawn_ok :
  MemoryStorage.stats (storage (start_bot str_int m token code now teardown_ok spawn_ok).2)
  = MemoryStorage.stats (storage m).
Proof.
  unfold start_bot.
  set (m1 := match bots m !! token with Some _ => _ | None => m end).
  assert (H1 : MemoryStorage.stats (storage m1) = MemoryStorage.stats (storage m)).
  { subst m1. destruct (bots m !! token); [apply stop_bot_stats | done]. }
  match goal with |- context [MemoryStorage.incr str_int ?s ?k now] =>
    pose proof (incr_stats str_int s k now) as H2;
    destruct (MemoryStorage.incr str_int s k now) as [[r|] st5] end;
    cbn in H2; [destruct spawn_ok|]; cbn; by rewrite H2.
Qed.

End ManagerFacts.

(** C2. Upload then delete of the token ["1:a"]: [delete_bot] looks for the
    keys that contain the text ["bot:1:a:*"], star included; no key does, so
    the four keys of the bot stay and the status query answers [stopped]. *)
Lemma delete_bot_leaves_the_record :
  let m1 := (BotManager.start_bot no_numeral (BotManager.init 0) "1:a" "pass" 1 true true).2 in
  let m2 := (BotManager.delete_bot m1 "1:a" 2 true).2 in
  MemoryStorage.keys (BotManager.storage m1) "bot:1:a:*" = [] /\
  List.filter (String.prefix "bot:1:a:") (MemoryStorage.keys (BotManager.storage m2) "*")
  = ["bot:1:a:status"; "bot:1:a:code"; "bot:1:a:created_at"; "bot:1:a:last_active"] /\
  BotManager.info_status (BotManager.get_bot_info m2 "1:a" 3).1 = VStr "stopped".
Proof. vm_compute. done. Qed.

(** C3. Two calls of [start_bot] for one token, the second before the task
    of the first has stored its application in [self.bots]: the test
    [token in self.bots] fails, nothing is stopped, and two tasks are alive;
    [bot_tasks] names the second one only. Both go on to run. The same
    happens when the first task did register and the teardown inside
    [stop_bot] raises. *)
Lemma start_bot_twice_two_live_tasks :
  let start m now td := (BotManager.start_bot no_numeral m "1:a" "pass" now td true).2 in
  let m2 := start (start (BotManager.init 0) 1 true) 2 true in
  let m4 := BotManager.run_bot (BotManager.run_bot m2 0 (Some 7%nat) 3) 1 (Some 8%nat) 4 in
  let m2' := start (BotManager.run_bot (start (BotManager.init 0) 1 true) 0 (Some 7%nat) 2) 3 false in
  length (BotManager.live_tasks m2 "1:a") = 2%nat /\
  BotManager.bot_tasks m2 !! "1:a" = Some 1%nat /\
  map BotManager.task_status (BotManager.tasks m4)
    = [BotManager.Running; BotManager.Running] /\
  length (BotManager.live_tasks m2' "1:a") = 2%nat.
Proof. vm_compute. done. Qed.

(** The restart that works: the first task has registered and the teardown
    goes through. *)
Example start_bot_restart_one_live_task :
  let start m now := (BotManager.start_bot no_numeral m "1:a" "pass" now true true).2 in
  let m := start (BotManager.run_bot (start (BotManager.init 0) 1) 0 (Some 7%nat) 2) 3 in
  map BotManager.task_status (BotManager.tasks m)
    = [BotManager.Cancelled; BotManager.Scheduled].
Proof. vm_compute. done. Qed.






(** The status query after [stop_bot], when the status key carries no
    expiry instant (the program never gives it one). *)
Lemma stop_bot_status_query (m : BotManager.t) (token : string)
    (now later : Z) (teardown_ok : bool) :
  MemoryStorage.expiry (BotManager.storage m) !! status_key token = None ->
  BotManager.info_status
    (BotManager.get_bot_info (BotManager.stop_bot m token now teardown_ok).2 token later).1
  = VStr "stopped".
Proof.
  intros He. unfold BotManager.get_bot_info.
  set (m' := (BotManager.stop_bot m token now teardown_ok).2).
  assert (Hx : MemoryStorage.expired (BotManager.storage m') (status_key token) later = false).
  { unfold MemoryStorage.expired.
    replace (MemoryStorage.expiry (BotManager.storage m'))
      with (MemoryStorage.expiry (BotManager.storage m)); [by rewrite He|].
    subst m'. unfold BotManager.stop_bot.
    destruct (BotManager.bots m !! token); [destruct teardown_ok|]; done. }
  rewrite (get_fresh _ _ _ _ Hx).
  subst m'. rewrite stop_bot_status. cbn.
  repeat match goal with |- context [MemoryStorage.get ?s ?k ?d ?n] =>
    destruct (MemoryStorage.get s k d n) end.
  done.
Qed.



(** C7. One [start_bot] on the fresh state: the counter that [start_bot]
    increments is the entry ["stats:bots_created"] of [storage.data], now
    1; [get_stats] reports [storage.stats['bots_created']], which no
    statement of the program writes and which is still 0. *)
Lemma get_stats_bots_created_stays_zero :
  let m := (BotManager.start_bot no_numeral (BotManager.init 0) "1:a" "pass" 1 true true).2 in
  MemoryStorage.data (BotManager.storage m) !! counter_key = Some (VNum 1) /\
  sv_bots_created (get_stats m) = 0 /\
  sv_bots_created (get_stats m) <> 1.
Proof. vm_compute. repeat split; done. Qed.

(** [get_stats] reports the same number of created bots before and after
    any [start_bot]. *)
Lemma get_stats_ignores_start_bot (str_int : string -> option Z)
    (m : BotManager.t) (token code : string) (now : Z) (teardown_ok spawn_ok : bool) :
  sv_bots_created
    (get_stats (BotManager.start_bot str_int m token code now teardown_ok spawn_ok).2)
  = sv_bots_created (get_stats m).
Proof. unfold get_stats. cbn. by rewrite start_bot_stats. Qed.

(** ** Callers of [incr] *)

Section SerialCalls.

Import Interleaving.

Variable str_int : string -> option Z.
Variable key : string.

Implicit Types (s : MemoryStorage.t) (calls : list call) (i j : nat) (k : Z).

Lemma step_other c x j : x.1 <> j -> (step str_int key c x).2 !! j = c.2 !! j.
Proof.
  destruct c as [s calls], x as [i now]. cbn [fst snd]. intros Hne.
  unfold step. destruct (calls !! i) as [[ | val | r | ]|]; try done.
  - destruct (MemoryStorage.incr_read str_int s key now) as [[val|] s1];
      cbn [snd]; by rewrite list_lookup_insert_ne.
  - cbn [snd]. by rewrite list_lookup_insert_ne.
Qed.

Lemma run_other sched : forall c j,
  j ∉ sched.*1 -> (run str_int key sched c).2 !! j = c.2 !! j.
Proof.
  induction sched as [|x sched IH]; intros c j Hj; [done|].
  cbn in Hj. apply not_elem_of_cons in Hj as [Hne Hj].
  cbn. unfold run in IH. rewrite IH by done. by apply step_other.
Qed.

(** A caller that runs its two statements back to back performs [incr]. *)
Lemma step_step s calls i t1 t2 k :
  calls !! i = Some Pending -> counter_is key s k ->
  step str_int key (step str_int key (s, calls) (i, t1)) (i, t2)
  = (MemoryStorage.set s key (VNum (k + 1)) None t2, <[i := Returned (k + 1)]> calls).
Proof.
  intros Hi [He Hk]. pose proof (lookup_lt_Some _ _ _ Hi) as Hlt.
  unfold step at 2. rewrite Hi. unfold MemoryStorage.incr_read.
  rewrite get_fresh by (unfold MemoryStorage.expired; by rewrite He).
  rewrite Hk. cbn [MemoryStorage.py_int]. unfold step.
  rewrite list_lookup_insert_eq by done.
  by rewrite list_insert_insert_eq.
Qed.

Lemma counter_is_set s k k' now :
  counter_is key s k -> counter_is key (MemoryStorage.set s key (VNum k') None now) k'.
Proof.
  intros [He _]. split; [done|]. by rewrite set_data_eq.
Qed.

Lemma serial_callers order i : i ∈ (serial order).*1 <-> i ∈ order.*1.
Proof.
  induction order as [|[j [t1 t2]] order IH]; [done|].
  cbn. rewrite !elem_of_cons. unfold serial in IH. rewrite IH. tauto.
Qed.

Lemma run_serial order : forall s calls k,
  NoDup order.*1 ->
  (forall i, i ∈ order.*1 -> calls !! i = Some Pending) ->
  counter_is key s k ->
  let c := run str_int key (serial order) (s, calls) in
  counter_is key c.1 (k + Z.of_nat (length order)) /\
  (forall i, i ∈ order.*1 -> exists r, c.2 !! i = Some (Returned r)).
Proof.
  induction order as [|[i [t1 t2]] order IH]; intros s calls k Hnd Hp Hc.
  - cbn. split; [by rewrite Z.add_0_r | intros i Hi; by apply elem_of_nil in Hi].
  - cbn in Hnd. apply NoDup_cons in Hnd as [Hi Hnd].
    cbn [serial flat_map fst snd app run fold_left].
    rewrite step_step with (k := k); [|apply Hp; cbn; left|done].
    specialize (IH (MemoryStorage.set s key (VNum (k + 1)) None t2)
                   (<[i := Returned (k + 1)]> calls) (k + 1) Hnd).
    destruct IH as [IH1 IH2].
    + intros j Hj. rewrite list_lookup_insert_ne by (intros ->; done).
      apply Hp. cbn. by right.
    + by apply (counter_is_set s k).
    + fold (serial order). fold (run str_int key (serial order)
        (MemoryStorage.set s key (VNum (k + 1)) None t2, <[i:=Returned (k + 1)]> calls)).
      split.
      * replace (k + Z.of_nat (length ((i, (t1, t2)) :: order)))
          with (k + 1 + Z.of_nat (length order)) by (cbn [length]; lia).
        exact IH1.
      * intros j Hj. cbn in Hj. apply elem_of_cons in Hj as [->|Hj]; [|by apply IH2].
        exists (k + 1). rewrite run_other.
        -- cbn. apply list_lookup_insert_eq. eapply lookup_lt_Some, Hp. cbn. left.
        -- by rewrite serial_callers.
Qed.
End SerialCalls.

(** C6, as stated: 100 callers of [incr("c")] on the fresh store, each
    reading before any of them writes. Every caller reads 0 and stores 1;
    all 100 calls return 1 and the stored value is 1. *)
Lemma interleaved_incr_loses_updates :
  let c := Interleaving.run no_numeral "c" (Interleaving.reads_then_writes 100 0)
             (MemoryStorage.init 0, replicate 100 Interleaving.Pending) in
  MemoryStorage.data c.1 !! "c" = Some (VNum 1) /\
  c.2 = replicate 100 (Interleaving.Returned 1) /\
  MemoryStorage.data c.1 !! "c" <> Some (VNum 100).
Proof. vm_compute. repeat split; done. Qed.

(** The same 100 callers one after the other. *)
Example serial_incr_100 :
  let order := map (fun i => (i, (0, 0))) (seq 0 100) in
  MemoryStorage.data
    (Interleaving.run no_numeral "c" (Interleaving.serial order)
       (MemoryStorage.init 0, replicate 100 Interleaving.Pending)).1 !! "c"
  = Some (VNum 100).
Proof. vm_compute. done. Qed.

(** C6, amended. [incr] is a read followed by a write, without a lock. When
    [n >= 1] callers each call [incr(key)] once on an absent key and the
    calls do not overlap (each caller runs both statements before the next
    caller starts, in any order of the callers and at any instants), every
    call returns and the stored value is [n]. *)
Theorem serial_incr_counts (str_int : string -> option Z) (key : string)
    (n : nat) (s : MemoryStorage.t) (order : list (nat * (Z * Z))) :
  order.*1 ≡ₚ seq 0 n ->
  (0 < n)%nat ->
  MemoryStorage.data s !! key = None ->
  MemoryStorage.expiry s !! key = None ->
  let c := Interleaving.run str_int key (Interleaving.serial order)
             (s, replicate n Interleaving.Pending) in
  MemoryStorage.data c.1 !! key = Some (VNum (Z.of_nat n)) /\
  (forall i, (i < n)%nat -> exists r, c.2 !! i = Some (Interleaving.Returned r)).
Proof.
  intros Hperm Hn Hd He c.
  assert (Hin : forall i, i ∈ order.*1 <-> (i < n)%nat).
  { intros i. rewrite Hperm, elem_of_seq. lia. }
  assert (Hlen : length order = n).
  { rewrite <- (length_fmap fst), Hperm. apply length_seq. }
  destruct (run_serial str_int key order s (replicate n Interleaving.Pending) 0)
    as [[_ Hk] Hr].
  - rewrite Hperm. apply NoDup_seq.
  - intros i Hi. apply lookup_replicate_2. by apply Hin.
  - split; [done|]. by rewrite Hd.
  - fold c in Hk, Hr. split; [|intros i Hi; by apply Hr, Hin].
    rewrite Hlen, Z.add_0_l in Hk.
    destruct (MemoryStorage.data c.1 !! key) as [v|]; cbn in Hk.
    + by rewrite Hk.
    + injection Hk as Hk. lia.
Qed.

Lemma serial_incr_counts_witness :
  let order := [(1%nat, (1, 2)); (0%nat, (3, 4)); (2%nat, (5, 6))] in
  MemoryStorage.data
    (Interleaving.run no_numeral "c" (Interleaving.serial order)
       (MemoryStorage.init 0, replicate 3 Interleaving.Pending)).1 !! "c"
  = Some (VNum 3).
Proof.
  intros order.
  refine (proj1 (serial_incr_counts no_numeral "c" 3 (MemoryStorage.init 0) order
                   _ _ _ _)).
  - cbn. apply perm_swap.
  - lia.
  - reflexivity.
  - reflexivity.
Defined.

(** ** The list of bots *)

Section StringFacts.

Implicit Types (a b p s t : string) (c sep : ascii).

Lemma append_cons c a b : String c a ++ b = String c (a ++ b).
Proof. reflexivity. Qed.

Lemma append_nil b : "" ++ b = b.
Proof. reflexivity. Qed.

Lemma append_assoc a b t : a ++ (b ++ t) = (a ++ b) ++ t.
Proof.
  induction a as [|c a IH]; [done|]. rewrite !append_cons. by rewrite IH.
Qed.

Lemma prefix_append p : forall s, String.prefix p s = true -> exists b, s = p ++ b.
Proof.
  induction p as [|c p IH]; intros s H.
  - by exists s.
  - destruct s as [|d s]; [done|]. cbn in H.
    destruct (ascii_dec c d) as [->|]; [|done].
    destruct (IH s H) as [b ->]. by exists b.
Qed.

Lemma contains_append p : forall s,
  contains p s = true -> exists a b, s = a ++ p ++ b.
Proof.
  induction s as [|c s IH]; cbn [contains]; intros H.
  - rewrite orb_false_r in H. destruct (prefix_append _ _ H) as [b ->].
    by exists "", b.
  - apply orb_true_iff in H as [H|H].
    + destruct (prefix_append _ _ H) as [b ->]. by exists "", b.
    + destruct (IH H) as (a & b & ->). by exists (String c a), b.
Qed.

Lemma split_cons sep s : exists x xs, split sep s = x :: xs.
Proof.
  destruct s as [|c s]; cbn; [eauto|].
  destruct (Ascii.eqb c sep); [eauto|]. destruct (split sep s); eauto.
Qed.

Lemma split_append sep a r :
  split sep (a ++ String sep r) = (split sep a ++ split sep r)%list.
Proof.
  induction a as [|c a IH].
  - rewrite append_nil. cbn. by rewrite Ascii.eqb_refl.
  - rewrite append_cons. cbn. destruct (Ascii.eqb c sep); [by rewrite IH|].
    rewrite IH. by destruct (split_cons sep a) as (x & xs & ->).
Qed.

Lemma split_no_sep sep s : has_char sep s = false -> split sep s = [s].
Proof.
  induction s as [|c s IH]; cbn; [done|]. intros H.
  apply orb_false_iff in H as [-> H]. by rewrite IH.
Qed.

Lemma split_head_no_sep sep : forall s x xs,
  split sep s = x :: xs -> has_char sep x = false.
Proof.
  induction s as [|c s IH]; cbn; intros x xs H.
  - by injection H as <- _.
  - destruct (Ascii.eqb c sep) eqn:Hc; [by injection H as <- _|].
    destruct (split_cons sep s) as (y & ys & Hs). rewrite Hs in H.
    injection H as <- _. cbn. rewrite Hc. by apply (IH y ys).
Qed.

Lemma has_char_append c a b : has_char c (a ++ b) = has_char c a || has_char c b.
Proof.
  induction a as [|d a IH]; [done|]. rewrite append_cons. cbn.
  by rewrite IH, orb_assoc.
Qed.

Lemma has_char_take c : forall n s,
  has_char c s = false -> has_char c (take_str n s) = false.
Proof.
  unfold take_str. induction n as [|n IH]; intros [|d s] H; cbn; try done.
  cbn in H. apply orb_false_iff in H as [-> H]. by apply IH.
Qed.

(** The segments of a status key. *)
Lemma split_status_key T :
  split colon (status_key T) = ("bot" :: split colon T ++ ["status"])%list.
Proof.
  unfold status_key, bot_key.
  change ("bot:" ++ T ++ ":" ++ "status")
    with ("bot" ++ String colon (T ++ String colon "status")).
  by rewrite !split_append.
Qed.

(** The segments of a key that [keys("bot:*:status")] keeps. *)
Lemma split_listed_key key :
  contains "bot:*:status" key = true ->
  exists x xs y ys, split colon key = ((x :: xs) ++ "*" :: y :: ys)%list.
Proof.
  intros H. apply contains_append in H as (a & b & ->).
  change ("bot:*:status" ++ b)
    with ("bot" ++ String colon ("*" ++ String colon ("status" ++ b))).
  rewrite append_assoc, !split_append.
  destruct (split_cons colon (a ++ "bot")) as (x & xs & ->).
  destruct (split_cons colon ("status" ++ b)) as (y & ys & ->).
  by exists x, xs, y, ys.
Qed.


Lemma listed_status_key_star T :
  has_char colon T = false ->
  contains "bot:*:status" (status_key T) = true ->
  T = "*".
Proof.
  intros Hc H. destruct (split_listed_key _ H) as (x & xs & y & ys & Hs).
  rewrite split_status_key, (split_no_sep _ _ Hc) in Hs. cbn in Hs.
  destruct xs as [|x' [|x'' xs]]; cbn in Hs; [congruence|..];
    injection Hs; intros; try discriminate.
  by destruct xs.
Qed.

Lemma mask_of_listed_key T tok :
  contains "bot:*:status" (status_key T) = true ->
  split colon (status_key T) !! 1%nat = Some tok ->
  BotManager.mask tok <> T.
Proof.
  intros H Hs Hm. rewrite split_status_key in Hs.
  destruct (split_cons colon T) as (x & xs & HT). rewrite HT in Hs. cbn in Hs.
  injection Hs as ->.
  pose proof (split_head_no_sep _ _ _ _ HT) as Hx.
  assert (Hc : has_char colon T = false).
  { rewrite <- Hm. unfold BotManager.mask.
    by rewrite has_char_append, (has_char_take _ _ _ Hx). }
  pose proof (listed_status_key_star T Hc H) as ->.
  cbn in HT. injection HT as <- _. done.
Qed.

End StringFacts.

Section ListFacts.

Import BotManager.

(** The summaries come out in the order of the keys, one for each key, and
    the token field of each is the mask of the second segment of its key. *)
Lemma all_bots_loop_entry ks : forall st now bots st',
  all_bots_loop ks st now = (Some bots, st') ->
  forall (i : nat) key e, ks !! i = Some key -> bots !! i = Some e ->
  exists tok, split colon key !! 1%nat = Some tok /\ sum_token e = mask tok.
Proof.
  induction ks as [|k ks IH]; intros st now bots st' H i key e Hk He; [done|].
  cbn [all_bots_loop] in H.
  destruct (split colon k !! 1%nat) as [tok|] eqn:Hs; [|done].
  destruct (MemoryStorage.get st k VNone now) as [status st1].
  destruct (MemoryStorage.get st1 (bot_key tok "created_at") VNone now)
    as [created st2].
  destruct (all_bots_loop ks st2 now) as [[r|] st3] eqn:Hr; [|done].
  injection H as <- <-. destruct i as [|i]; cbn in Hk, He.
  - injection Hk as <-. injection He as <-. by exists tok.
  - by apply (IH _ _ _ _ Hr i key e).
Qed.



End ListFacts.

(** The mask alone can return its argument; no key of such a token passes
    the filter of [keys("bot:*:status")]. *)
Example mask_fixed_point :
  BotManager.mask "0123456789..." = "0123456789..." /\
  contains "bot:*:status" (status_key "0123456789...") = false.
Proof. vm_compute. done. Qed.

(** Across bots the mask of one token can be another token: with the
    status keys of the tokens ["*"] and ["*..."] in the store, the one
    summary listed (for ["*"]) reads ["*..."]. *)
Example summary_reads_like_another_token :
  let m1 := (BotManager.stop_bot (BotManager.init 0) "*" 1 true).2 in
  let m2 := (BotManager.stop_bot m1 "*..." 2 true).2 in
  map BotManager.sum_token (default [] (BotManager.get_all_bots m2 3).1) = ["*..."] /\
  MemoryStorage.exists_ (BotManager.storage m2) (status_key "*...") = true.
Proof. vm_compute. done. Qed.


(** * Further properties of the store *)

Section StoreLaws.

Import MemoryStorage.

Implicit Types (s : MemoryStorage.t) (key : string) (v dflt : value) (now : Z).

Lemma delete_data s key k :
  data (delete s key) !! k = if decide (key = k) then None else data s !! k.
Proof. cbn. apply lookup_delete. Qed.

Lemma delete_expiry s key k :
  expiry (delete s key) !! k = if decide (key = k) then None else expiry s !! k.
Proof. cbn. apply lookup_delete. Qed.

Lemma fold_delete_stats ks : forall s, stats (fold_left delete ks s) = stats s.
Proof. induction ks as [|k ks IH]; intros s; [done|]. cbn. by rewrite IH. Qed.

Lemma fold_delete_data ks : forall s k,
  data (fold_left delete ks s) !! k = if decide (k ∈ ks) then None else data s !! k.
Proof.
  induction ks as [|k' ks IH]; intros s k; cbn [fold_left].
  - by rewrite decide_False by apply not_elem_of_nil.
  - rewrite IH, delete_data.
    destruct (decide (k ∈ ks)) as [Hin|Hin].
    + by rewrite decide_True by (by right).
    + destruct (decide (k' = k)) as [->|Hne].
      * by rewrite decide_True by left.
      * rewrite decide_False; [done|]. intros [->|?]%elem_of_cons; done.
Qed.

Lemma fold_delete_expiry ks : forall s k,
  expiry (fold_left delete ks s) !! k
  = if decide (k ∈ ks) then None else expiry s !! k.
Proof.
  induction ks as [|k' ks IH]; intros s k; cbn [fold_left].
  - by rewrite decide_False by apply not_elem_of_nil.
  - rewrite IH, delete_expiry.
    destruct (decide (k ∈ ks)) as [Hin|Hin].
    + by rewrite decide_True by (by right).
    + destruct (decide (k' = k)) as [->|Hne].
      * by rewrite decide_True by left.
      * rewrite decide_False; [done|]. intros [->|?]%elem_of_cons; done.
Qed.

Lemma well_formed_lookup s :
  well_formed s <-> forall k, is_Some (expiry s !! k) -> is_Some (data s !! k).
Proof.
  unfold well_formed. split.
  - intros H k Hk. apply elem_of_dom, H, elem_of_dom, Hk.
  - intros H k Hk. apply elem_of_dom, H, elem_of_dom, Hk.
Qed.

Lemma well_formed_init now : well_formed (init now).
Proof. apply well_formed_lookup. intros k [e He]. cbn in He. by rewrite lookup_empty in He. Qed.

Lemma well_formed_set s key v ttl now : well_formed s -> well_formed (set s key v ttl now).
Proof.
  rewrite !well_formed_lookup. intros H k Hk. cbn in *.
  destruct (decide (key = k)) as [->|Hne]; [by rewrite lookup_insert_eq|].
  rewrite lookup_insert_ne by done. apply H.
  destruct ttl as [n|]; [destruct (Z.eqb n 0)|]; [done| |done].
  by rewrite lookup_insert_ne in Hk.
Qed.

Lemma well_formed_delete s key : well_formed s -> well_formed (delete s key).
Proof.
  rewrite !well_formed_lookup. intros H k. rewrite delete_data, delete_expiry.
  destruct (decide (key = k)); [by intros [? ?] | apply H].
Qed.

Lemma well_formed_get s key dflt now : well_formed s -> well_formed (get s key dflt now).2.
Proof.
  intros H. unfold get. destruct (expired s key now); [by apply well_formed_delete | done].
Qed.

Lemma well_formed_incr str_int s key now :
  well_formed s -> well_formed (incr str_int s key now).2.
Proof.
  intros H. unfold incr, incr_read.
  pose proof (well_formed_get s key (VNum 0) now H) as Hg.
  destruct (get s key (VNum 0) now) as [v s1]. cbn in Hg.
  destruct (py_int str_int v); [by apply well_formed_set | done].
Qed.

Lemma well_formed_fold_delete ks : forall s,
  well_formed s -> well_formed (fold_left delete ks s).
Proof.
  induction ks as [|k ks IH]; intros s H; [done|]. cbn. by apply IH, well_formed_delete.
Qed.

Lemma well_formed_cleanup_expired s now :
  well_formed s -> well_formed (cleanup_expired s now).2.
Proof.
  intros H. unfold cleanup_expired. cbn [snd]. unfold well_formed. cbn.
  by apply well_formed_fold_delete.
Qed.

(** [set] with a ttl, then [get]. *)
Lemma set_ttl_get s key v dflt n now later :
  n <> 0 ->
  let s' := set s key v (Some n) now in
  get s' key dflt later
  = if Z.ltb (now + n) later then (dflt, delete s' key) else (v, s').
Proof.
  intros Hn s'. unfold get, expired. subst s'. cbn.
  destruct (Z.eqb_spec n 0) as [|_]; [done|].
  rewrite !lookup_insert_eq. by destruct (Z.ltb (now + n) later).
Qed.

Lemma get_other_data s key dflt now k :
  key <> k -> data (get s key dflt now).2 !! k = data s !! k /\
              expiry (get s key dflt now).2 !! k = expiry s !! k.
Proof.
  intros Hne. unfold get. destruct (expired s key now); cbn; [|done].
  by rewrite !lookup_delete_ne.
Qed.

Lemma get_again s key dflt now : get (get s key dflt now).2 key dflt now = get s key dflt now.
Proof.
  unfold get at 2 3. destruct (expired s key now) eqn:Hx; cbn [snd].
  - unfold get, expired. cbn. by rewrite !lookup_delete_eq.
  - unfold get. by rewrite Hx.
Qed.

Lemma get_value s key dflt now :
  (get s key dflt now).1
  = match expiry s !! key with
    | Some e => if Z.ltb e now then dflt else default dflt (data s !! key)
    | None => default dflt (data s !! key)
    end.
Proof.
  unfold get, expired. destruct (expiry s !! key) as [e|]; [|done].
  by destruct (Z.ltb e now).
Qed.

Lemma get_after_get s key key' dflt dflt' now :
  (get (get s key' dflt' now).2 key dflt now).1 = (get s key dflt now).1.
Proof.
  destruct (decide (key' = key)) as [->|Hne].
  - rewrite (get_value s). rewrite get_value. unfold get, expired.
    destruct (expiry s !! key) as [e|] eqn:He; cbn; [|by rewrite ?He].
    destruct (Z.ltb e now) eqn:Hlt; cbn; [by rewrite !lookup_delete_eq|].
    by rewrite He, Hlt.
  - destruct (get_other_data s key' dflt' now key Hne) as [Hd He].
    by rewrite !get_value, Hd, He.
Qed.

End StoreLaws.

Section Sweep.
Import MemoryStorage.
Implicit Types (s : MemoryStorage.t) (key : string) (v dflt : value) (now : Z).

(** The keys that [cleanup_expired] collects. *)
Lemma swept_keys s now key :
  key ∈ (List.filter (fun kv => Z.ltb kv.2 now) (map_to_list (expiry s))).*1
  <-> expired s key now = true.
Proof.
  rewrite list_elem_of_fmap, expired_spec. split.
  - intros ([k e] & -> & H). apply list_elem_of_In, filter_In in H as [H Hlt].
    apply list_elem_of_In, elem_of_map_to_list in H. cbn in *.
    exists e. split; [done|]. by apply Z.ltb_lt.
  - intros (e & He & Hlt). exists (key, e). split; [done|].
    apply list_elem_of_In, filter_In. split.
    + by apply list_elem_of_In, elem_of_map_to_list.
    + by apply Z.ltb_lt.
Qed.

Lemma cleanup_expired_data s now key :
  data (cleanup_expired s now).2 !! key
  = if expired s key now then None else data s !! key.
Proof.
  unfold cleanup_expired. cbn [snd data]. rewrite fold_delete_data.
  destruct (expired s key now) eqn:Hx.
  - by rewrite decide_True by (by apply swept_keys).
  - rewrite decide_False; [done|]. rewrite swept_keys. by rewrite Hx.
Qed.

Lemma cleanup_expired_expiry s now key :
  expiry (cleanup_expired s now).2 !! key
  = if expired s key now then None else expiry s !! key.
Proof.
  unfold cleanup_expired. cbn [snd expiry]. rewrite fold_delete_expiry.
  destruct (expired s key now) eqn:Hx.
  - by rewrite decide_True by (by apply swept_keys).
  - rewrite decide_False; [done|]. rewrite swept_keys. by rewrite Hx.
Qed.

End Sweep.

(** The statement of [cleanup_expired_sweeps], for the proofs that follow. *)
Lemma cleanup_expired_sweeps_aux (s : MemoryStorage.t) (now : Z) (key : string) :
  let s' := (MemoryStorage.cleanup_expired s now).2 in
  MemoryStorage.expired s' key now = false /\
  MemoryStorage.data s' !! key
    = (if MemoryStorage.expired s key now then None else MemoryStorage.data s !! key) /\
  MemoryStorage.expiry s' !! key
    = (if MemoryStorage.expired s key now then None else MemoryStorage.expiry s !! key) /\
  last_cleanup (MemoryStorage.stats s') = now.
Proof.
  intros s'. subst s'. split; [|split; [apply cleanup_expired_data|split;
    [apply cleanup_expired_expiry|done]]].
  unfold MemoryStorage.expired at 1. rewrite cleanup_expired_expiry.
  destruct (MemoryStorage.expired s key now) eqn:Hx; [done|].
  exact Hx.
Qed.

(** X1. After [cleanup_expired] at an instant no key is expired at that
    instant: the keys that were expired are gone from both maps, every
    other key keeps its value and its expiry instant, and [last_cleanup]
    is the instant of the sweep. *)
Theorem cleanup_expired_sweeps (s : MemoryStorage.t) (now : Z) (key : string) :
  let s' := (MemoryStorage.cleanup_expired s now).2 in
  MemoryStorage.expired s' key now = false /\
  MemoryStorage.data s' !! key
    = (if MemoryStorage.expired s key now then None else MemoryStorage.data s !! key) /\
  MemoryStorage.expiry s' !! key
    = (if MemoryStorage.expired s key now then None else MemoryStorage.expiry s !! key) /\
  last_cleanup (MemoryStorage.stats s') = now.
Proof. exact (cleanup_expired_sweeps_aux s now key). Qed.

(** X2. In a store where every key with an expiry instant is a key of
    [data], the number that [cleanup_expired] returns is the number of keys
    it removes from [data]. *)
Theorem cleanup_expired_count (s : MemoryStorage.t) (now : Z) :
  MemoryStorage.well_formed s ->
  let r := MemoryStorage.cleanup_expired s now in
  size (MemoryStorage.data s) = (size (MemoryStorage.data r.2) + r.1)%nat.
Proof.
  intros Hwf r.
  set (old := (List.filter (fun kv => Z.ltb kv.2 now)
                 (map_to_list (MemoryStorage.expiry s))).*1).
  assert (Hnd : NoDup old).
  { subst old. apply (NoDup_fmap_fst).
    - intros k e1 e2 H1 H2. apply list_elem_of_In, filter_In in H1 as [H1 _].
      apply list_elem_of_In, filter_In in H2 as [H2 _].
      apply list_elem_of_In, elem_of_map_to_list in H1.
      apply list_elem_of_In, elem_of_map_to_list in H2. congruence.
    - apply NoDup_ListNoDup, List.NoDup_filter, NoDup_ListNoDup, NoDup_map_to_list. }
  assert (Hdom : dom (MemoryStorage.data r.2)
                 = dom (MemoryStorage.data s) ∖ list_to_set old).
  { apply set_eq. intros k. rewrite elem_of_difference, !elem_of_dom.
    rewrite elem_of_list_to_set. subst r. rewrite cleanup_expired_data.
    subst old. rewrite swept_keys.
    destruct (MemoryStorage.expired s k now).
    - split; [by intros [? ?] | by intros [_ []]].
    - split; [by intros H | by intros [H _]]. }
  assert (Hsub : (list_to_set old : gset string) ⊆ dom (MemoryStorage.data s)).
  { intros k Hk. apply elem_of_list_to_set in Hk. subst old.
    apply swept_keys, expired_spec in Hk as (e & He & _).
    apply Hwf, elem_of_dom. eauto. }
  rewrite <- !size_dom, Hdom, size_difference by done.
  rewrite size_list_to_set by done.
  assert (length old <= size (dom (MemoryStorage.data s)))%nat.
  { rewrite <- (size_list_to_set (C := gset string)) by done.
    by apply subseteq_size. }
  subst r. cbn. fold old. lia.
Qed.

Lemma cleanup_expired_count_witness :
  let s := MemoryStorage.set
             (MemoryStorage.set (MemoryStorage.init 0) "a" (VStr "x") (Some 5) 0)
             "b" (VStr "y") None 0 in
  MemoryStorage.well_formed s /\
  (MemoryStorage.cleanup_expired s 9).1 = 1%nat /\
  size (MemoryStorage.data s)
  = (size (MemoryStorage.data (MemoryStorage.cleanup_expired s 9).2) + 1)%nat.
Proof.
  intros s.
  assert (H : MemoryStorage.well_formed s).
  { apply well_formed_set, well_formed_set, well_formed_init. }
  split; [exact H|]. split; [reflexivity|].
  exact (cleanup_expired_count s 9 H).
Defined.

(** The statement of [set_ttl_then_get], for the proofs that follow. *)
Lemma set_ttl_then_get_aux (s : MemoryStorage.t) (key : string) (v dflt : value)
    (n now later : Z) :
  n <> 0 ->
  let s' := MemoryStorage.set s key v (Some n) now in
  (later <= now + n -> MemoryStorage.get s' key dflt later = (v, s')) /\
  (now + n < later ->
     MemoryStorage.get s' key dflt later = (dflt, MemoryStorage.delete s' key) /\
     MemoryStorage.exists_ (MemoryStorage.get s' key dflt later).2 key = false) /\
  (n < 0 -> (MemoryStorage.get s' key dflt now).1 = dflt).
Proof.
  intros Hn s'. pose proof (set_ttl_get s key v dflt n now) as H. cbn zeta in H.
  fold s' in H. split; [|split].
  - intros Hle. rewrite H by done. by rewrite (proj2 (Z.ltb_ge _ _)).
  - intros Hlt. rewrite H by done. rewrite (proj2 (Z.ltb_lt _ _)) by done.
    split; [done|]. cbn [snd]. unfold MemoryStorage.exists_. cbn.
    rewrite lookup_delete_eq. apply bool_decide_eq_false. by intros [? ?].
  - intros Hneg. rewrite H by done. rewrite (proj2 (Z.ltb_lt _ _)) by lia. done.
Qed.

(** X3. [set] with a ttl other than 0, then [get]: up to the instant
    [now + ttl] included the value comes back and the store stays as it is;
    after it the default comes back and the key is dropped. A negative ttl
    makes the key expired at once. *)
Theorem set_ttl_then_get (s : MemoryStorage.t) (key : string) (v dflt : value)
    (n now later : Z) :
  n <> 0 ->
  let s' := MemoryStorage.set s key v (Some n) now in
  (later <= now + n -> MemoryStorage.get s' key dflt later = (v, s')) /\
  (now + n < later ->
     MemoryStorage.get s' key dflt later = (dflt, MemoryStorage.delete s' key) /\
     MemoryStorage.exists_ (MemoryStorage.get s' key dflt later).2 key = false) /\
  (n < 0 -> (MemoryStorage.get s' key dflt now).1 = dflt).
Proof. exact (set_ttl_then_get_aux s key v dflt n now later). Qed.

Lemma set_ttl_then_get_witness :
  let s' := MemoryStorage.set (MemoryStorage.init 0) "k" (VStr "v") (Some 300) 10 in
  MemoryStorage.get s' "k" VNone 310 = (VStr "v", s') /\
  MemoryStorage.get s' "k" VNone 311 = (VNone, MemoryStorage.delete s' "k").
Proof.
  intros s'.
  destruct (set_ttl_then_get (MemoryStorage.init 0) "k" (VStr "v") VNone 300 10 310)
    as (H1 & _ & _); [lia|].
  destruct (set_ttl_then_get (MemoryStorage.init 0) "k" (VStr "v") VNone 300 10 311)
    as (_ & H2 & _); [lia|].
  split; [apply H1; lia | apply H2; lia].
Defined.

(** X4. Reads at one instant are repeatable: a second [get] of the same key
    returns the same value and changes nothing more, and a [get] of any key
    in between does not change what a [get] returns. *)
Theorem get_repeatable (s : MemoryStorage.t) (key key' : string)
    (dflt dflt' : value) (now : Z) :
  MemoryStorage.get (MemoryStorage.get s key dflt now).2 key dflt now
    = MemoryStorage.get s key dflt now /\
  (MemoryStorage.get (MemoryStorage.get s key' dflt' now).2 key dflt now).1
    = (MemoryStorage.get s key dflt now).1.
Proof. split; [apply get_again | apply get_after_get]. Qed.

(** X5. [delete]: afterwards the key is absent for [get], [exists] and
    [keys], at every instant; the other keys keep their value and their
    expiry instant; on a key that is in neither map the store is unchanged. *)
Theorem delete_effect (s : MemoryStorage.t) (key : string) (dflt : value) (now : Z) :
  let s' := MemoryStorage.delete s key in
  MemoryStorage.get s' key dflt now = (dflt, s') /\
  MemoryStorage.exists_ s' key = false /\
  (key ∉ MemoryStorage.keys s' "*") /\
  (forall k, k <> key ->
     MemoryStorage.data s' !! k = MemoryStorage.data s !! k /\
     MemoryStorage.expiry s' !! k = MemoryStorage.expiry s !! k) /\
  (MemoryStorage.data s !! key = None -> MemoryStorage.expiry s !! key = None ->
     s' = s).
Proof.
  intros s'. subst s'. split; [|split; [|split; [|split]]].
  - unfold MemoryStorage.get, MemoryStorage.expired. cbn. by rewrite !lookup_delete_eq.
  - unfold MemoryStorage.exists_. cbn. rewrite lookup_delete_eq.
    apply bool_decide_eq_false. by intros [? ?].
  - rewrite keys_all_spec. cbn. rewrite lookup_delete_eq. by intros [? ?].
  - intros k Hk. cbn. by rewrite !lookup_delete_ne.
  - intros Hd He. destruct s as [d e st]. unfold MemoryStorage.delete. cbn in *.
    by rewrite !delete_id.
Qed.

Lemma delete_effect_witness :
  MemoryStorage.delete (MemoryStorage.init 0) "k" = MemoryStorage.init 0.
Proof.
  exact (proj2 (proj2 (proj2 (proj2
    (delete_effect (MemoryStorage.init 0) "k" VNone 0)))) eq_refl eq_refl).
Defined.

(** The statement of [incr_effect], for the proofs that follow. *)
Lemma incr_effect_aux (str_int : string -> option Z) (s : MemoryStorage.t)
    (key : string) (now : Z) :
  let r := MemoryStorage.incr str_int s key now in
  (forall n, r.1 = Some n -> MemoryStorage.data r.2 !! key = Some (VNum n)) /\
  (forall k, k <> key ->
     MemoryStorage.data r.2 !! k = MemoryStorage.data s !! k /\
     MemoryStorage.expiry r.2 !! k = MemoryStorage.expiry s !! k) /\
  (MemoryStorage.data s !! key = None -> r.1 = Some 1) /\
  (MemoryStorage.expired s key now = true ->
     r.1 = Some 1 /\ MemoryStorage.expiry r.2 !! key = None) /\
  (forall n, MemoryStorage.expired s key now = false ->
     MemoryStorage.data s !! key = Some (VNum n) ->
     r.1 = Some (n + 1) /\
     MemoryStorage.expiry r.2 !! key = MemoryStorage.expiry s !! key) /\
  (MemoryStorage.expired s key now = false ->
     MemoryStorage.data s !! key = Some VNone -> r = (None, s)).
Proof.
  intros r. subst r. unfold MemoryStorage.incr, MemoryStorage.incr_read.
  split; [|split; [|split; [|split; [|split]]]].
  - intros n. destruct (MemoryStorage.get s key (VNum 0) now) as [v s1].
    destruct (MemoryStorage.py_int str_int v); cbn; [|done].
    intros [= <-]. apply lookup_insert_eq.
  - intros k Hk. destruct (get_other_data s key (VNum 0) now k) as [Hd He]; [done|].
    destruct (MemoryStorage.get s key (VNum 0) now) as [v s1]. cbn in Hd, He.
    destruct (MemoryStorage.py_int str_int v); cbn; [|done].
    by rewrite lookup_insert_ne.
  - intros Hd. pose proof (get_value s key (VNum 0) now) as Hv.
    rewrite Hd in Hv. cbn in Hv.
    destruct (MemoryStorage.get s key (VNum 0) now) as [v s1]. cbn in Hv.
    assert (v = VNum 0) as ->.
    { destruct (MemoryStorage.expiry s !! key) as [e|]; [|done].
      by destruct (Z.ltb e now). }
    done.
  - intros Hx. destruct (get_expired s key (VNum 0) now Hx) as (-> & _ & He). done.
  - intros n Hx Hd. rewrite (get_fresh _ _ _ _ Hx), Hd. done.
  - intros Hx Hd. rewrite (get_fresh _ _ _ _ Hx), Hd. done.
Qed.

(** X6. [incr] returns the number it leaves in the store and touches no
    other key. It counts from 1 on a key that is absent or expired (an
    expired key loses its expiry instant), adds one to a stored number and
    keeps its expiry instant, and on a stored [None] it raises and leaves
    the store as it is. *)
Theorem incr_effect (str_int : string -> option Z) (s : MemoryStorage.t)
    (key : string) (now : Z) :
  let r := MemoryStorage.incr str_int s key now in
  (forall n, r.1 = Some n -> MemoryStorage.data r.2 !! key = Some (VNum n)) /\
  (forall k, k <> key ->
     MemoryStorage.data r.2 !! k = MemoryStorage.data s !! k /\
     MemoryStorage.expiry r.2 !! k = MemoryStorage.expiry s !! k) /\
  (MemoryStorage.data s !! key = None -> r.1 = Some 1) /\
  (MemoryStorage.expired s key now = true ->
     r.1 = Some 1 /\ MemoryStorage.expiry r.2 !! key = None) /\
  (forall n, MemoryStorage.expired s key now = false ->
     MemoryStorage.data s !! key = Some (VNum n) ->
     r.1 = Some (n + 1) /\
     MemoryStorage.expiry r.2 !! key = MemoryStorage.expiry s !! key) /\
  (MemoryStorage.expired s key now = false ->
     MemoryStorage.data s !! key = Some VNone -> r = (None, s)).
Proof. exact (incr_effect_aux str_int s key now). Qed.

Lemma incr_effect_witness :
  let s := MemoryStorage.set (MemoryStorage.init 0) "c" (VNum 41) None 0 in
  (MemoryStorage.incr no_numeral s "c" 1).1 = Some 42.
Proof.
  intros s.
  destruct (incr_effect no_numeral s "c" 1) as (_ & _ & _ & _ & H & _).
  exact (proj1 (H 41 eq_refl eq_refl)).
Defined.

(** X7. The store keeps every key that has an expiry instant among the keys
    of [data]: this holds in the fresh store and is kept by [set],
    [delete], [get], [incr] and [cleanup_expired]. *)
Theorem well_formed_preserved (str_int : string -> option Z) (s : MemoryStorage.t)
    (key : string) (v dflt : value) (ttl : option Z) (now : Z) :
  MemoryStorage.well_formed s ->
  MemoryStorage.well_formed (MemoryStorage.set s key v ttl now) /\
  MemoryStorage.well_formed (MemoryStorage.delete s key) /\
  MemoryStorage.well_formed (MemoryStorage.get s key dflt now).2 /\
  MemoryStorage.well_formed (MemoryStorage.incr str_int s key now).2 /\
  MemoryStorage.well_formed (MemoryStorage.cleanup_expired s now).2.
Proof.
  intros H. split; [by apply well_formed_set|]. split; [by apply well_formed_delete|].
  split; [by apply well_formed_get|]. split; [by apply well_formed_incr|].
  by apply well_formed_cleanup_expired.
Qed.

Lemma well_formed_preserved_witness :
  MemoryStorage.well_formed (MemoryStorage.init 0) /\
  MemoryStorage.well_formed
    (MemoryStorage.set (MemoryStorage.init 0) "k" (VStr "v") (Some 5) 1).
Proof.
  split; [apply well_formed_init|].
  exact (proj1 (well_formed_preserved no_numeral (MemoryStorage.init 0) "k"
                  (VStr "v") VNone (Some 5) 1 (well_formed_init 0))).
Defined.

Section SubstringFacts.

Implicit Types (a b p s : string).

Lemma contains_unfold p s :
  contains p s
  = String.prefix p s || match s with
                         | EmptyString => false
                         | String _ s' => contains p s'
                         end.
Proof. by destruct s. Qed.

Lemma prefix_of_append p b : String.prefix p (p ++ b) = true.
Proof.
  induction p as [|c p IH]; [by destruct b|]. rewrite append_cons. cbn.
  by destruct (ascii_dec c c).
Qed.

Lemma contains_of_append a p b : contains p (a ++ p ++ b) = true.
Proof.
  induction a as [|c a IH].
  - rewrite append_nil, contains_unfold, prefix_of_append. done.
  - rewrite append_cons, contains_unfold, IH. apply orb_true_r.
Qed.

Lemma contains_iff p s : contains p s = true <-> exists a b, s = a ++ p ++ b.
Proof.
  split; [apply contains_append|]. intros (a & b & ->). apply contains_of_append.
Qed.

Lemma contains_empty s : contains "" s = true.
Proof. apply contains_iff. by exists "", s. Qed.

End SubstringFacts.

(** X8. [keys(pattern)] does not read the pattern as a glob: for a pattern
    other than ["*"] it lists exactly the stored keys in which the text of
    the pattern occurs, stars included, and for the empty pattern it lists
    every key, as for ["*"]. *)
Theorem keys_is_substring_search (s : MemoryStorage.t) (pattern key : string) :
  pattern <> "*" ->
  (key ∈ MemoryStorage.keys s pattern <->
     is_Some (MemoryStorage.data s !! key) /\
     exists a b, key = a ++ pattern ++ b) /\
  (key ∈ MemoryStorage.keys s "" <-> key ∈ MemoryStorage.keys s "*").
Proof.
  intros Hp. split.
  - rewrite keys_pattern_spec by done. by rewrite contains_iff.
  - rewrite keys_pattern_spec by done. rewrite keys_all_spec, contains_empty. tauto.
Qed.

Lemma keys_is_substring_search_witness :
  let s := MemoryStorage.set (MemoryStorage.init 0) "bot:7:status" (VStr "x") None 0 in
  "bot:7:status" ∈ MemoryStorage.keys s ":status".
Proof.
  intros s.
  destruct (keys_is_substring_search s ":status" "bot:7:status") as [H _]; [done|].
  apply H. split; [by eexists | by exists "bot:7", ""].
Defined.

(** * Further properties of the manager *)

Section KeyFacts.

Implicit Types (a b x y T f g : string).

Lemma length_append a b :
  String.length (a ++ b) = (String.length a + String.length b)%nat.
Proof. induction a as [|c a IH]; [done|]. rewrite append_cons. cbn. by rewrite IH. Qed.

Lemma append_inj_length a : forall b x y,
  String.length a = String.length b -> a ++ x = b ++ y -> a = b /\ x = y.
Proof.
  induction a as [|c a IH]; intros [|d b] x y Hl H; try done.
  rewrite !append_cons in H. injection H as -> H. cbn in Hl.
  destruct (IH b x y) as [-> ->]; [lia|done|done].
Qed.

Lemma append_suffix_inj a b x y :
  String.length x = String.length y -> a ++ x = b ++ y -> x = y.
Proof.
  intros Hl H. apply (append_inj_length a b x y); [|done].
  apply (f_equal String.length) in H. rewrite !length_append in H. lia.
Qed.

Lemma bot_key_split T g1 g2 :
  bot_key T (g1 ++ g2) = ("bot:" ++ T ++ ":" ++ g1) ++ g2.
Proof. unfold bot_key. by rewrite <- !append_assoc. Qed.

(** Keys of two bots with field names that end differently differ. *)
Lemma bot_key_suffix_ne T T' f g1 g2 :
  String.length f = String.length g2 -> f <> g2 ->
  bot_key T f <> bot_key T' (g1 ++ g2).
Proof.
  intros Hl Hne H. rewrite bot_key_split in H.
  change (bot_key T f) with ("bot:" ++ T ++ ":" ++ f) in H.
  rewrite !append_assoc in H. by apply append_suffix_inj in H.
Qed.

Lemma status_key_not_update T T' : status_key T <> bot_key T' "last_update".
Proof. by apply (bot_key_suffix_ne T T' "status" "last_" "update"). Qed.

Lemma status_key_not_active T T' : status_key T <> bot_key T' "last_active".
Proof. by apply (bot_key_suffix_ne T T' "status" "last_" "active"). Qed.

Lemma active_key_not_update T T' :
  bot_key T "last_active" <> bot_key T' "last_update".
Proof. by apply (bot_key_suffix_ne T T' "last_active" "" "last_update"). Qed.

(** Keys of one bot with different field names differ. *)
Lemma bot_key_field_inj T f g : bot_key T f = bot_key T g -> f = g.
Proof.
  unfold bot_key. intros H.
  by repeat apply String.app_inj in H.
Qed.

Lemma counter_key_not_bot_key T f : counter_key <> bot_key T f.
Proof. done. Qed.

Lemma webhook_key_not_bot_key T T' f : "webhook:" ++ T <> bot_key T' f.
Proof. done. Qed.

Lemma counter_key_not_webhook T : counter_key <> "webhook:" ++ T.
Proof. done. Qed.

End KeyFacts.

Section StopFacts.

Import BotManager.

Implicit Types (m : BotManager.t) (token : string) (now : Z).

Lemma stop_bot_expiry m token now td :
  MemoryStorage.expiry (storage (stop_bot m token now td).2)
  = MemoryStorage.expiry (storage m).
Proof. unfold stop_bot. destruct (bots m !! token); [destruct td|]; done. Qed.

Lemma stop_bot_data m token now td k :
  MemoryStorage.data (storage (stop_bot m token now td).2) !! k
  = if decide (status_key token = k) then Some (VStr "stopped")
    else MemoryStorage.data (storage m) !! k.
Proof.
  unfold stop_bot. destruct (bots m !! token); [destruct td|]; cbn; apply lookup_insert.
Qed.

Lemma stop_bot_bots m token now td token' :
  bots (stop_bot m token now td).2 !! token'
  = if decide (token = token') then (if td then None else bots m !! token')
    else bots m !! token'.
Proof.
  unfold stop_bot. destruct (bots m !! token) as [app|] eqn:Hb; [destruct td|]; cbn.
  - apply lookup_delete.
  - by destruct (decide (token = token')).
  - destruct (decide (token = token')) as [<-|]; [|done]. by destruct td.
Qed.

Lemma cancel_not_live tk : live (cancel tk) = false.
Proof. by destruct tk as [a b []]. Qed.

End StopFacts.

(** X9. [stop_bot] for one token leaves the other bots alone: their handles
    and task entries, every stored key other than the status key of the
    token, every expiry instant, and every task other than the one recorded
    for the token are as before. *)
Theorem stop_bot_frame (m : BotManager.t) (token : string) (now : Z)
    (teardown_ok : bool) :
  let m' := (BotManager.stop_bot m token now teardown_ok).2 in
  (forall token', token' <> token ->
     BotManager.bots m' !! token' = BotManager.bots m !! token' /\
     BotManager.bot_tasks m' !! token' = BotManager.bot_tasks m !! token') /\
  (forall k, k <> status_key token ->
     MemoryStorage.data (BotManager.storage m') !! k
     = MemoryStorage.data (BotManager.storage m) !! k) /\
  MemoryStorage.expiry (BotManager.storage m')
    = MemoryStorage.expiry (BotManager.storage m) /\
  length (BotManager.tasks m') = length (BotManager.tasks m) /\
  (forall i, BotManager.bot_tasks m !! token <> Some i ->
     BotManager.tasks m' !! i = BotManager.tasks m !! i).
Proof.
  intros m'. subst m'. split; [|split; [|split; [|split]]].
  - intros token' Hne. rewrite stop_bot_bots, decide_False by done. split; [done|].
    unfold BotManager.stop_bot.
    destruct (BotManager.bots m !! token); [destruct teardown_ok|]; cbn; try done.
    by rewrite lookup_delete_ne.
  - intros k Hk. by rewrite stop_bot_data, decide_False.
  - apply stop_bot_expiry.
  - unfold BotManager.stop_bot.
    destruct (BotManager.bots m !! token); [destruct teardown_ok|]; cbn; try done.
    destruct (BotManager.bot_tasks m !! token) as [i|]; [|done].
    unfold BotManager.cancel_task.
    destruct (BotManager.tasks m !! i); [by rewrite length_insert | done].
  - intros i Hi. unfold BotManager.stop_bot.
    destruct (BotManager.bots m !! token); [destruct teardown_ok|]; cbn; try done.
    destruct (BotManager.bot_tasks m !! token) as [j|]; [|done].
    unfold BotManager.cancel_task.
    destruct (BotManager.tasks m !! j); [|done].
    rewrite list_lookup_insert_ne; [done|]. intros ->. done.
Qed.

Lemma stop_bot_frame_witness :
  let m := (BotManager.start_bot no_numeral (BotManager.init 0) "1:a" "pass" 1 true true).2 in
  let m' := (BotManager.stop_bot m "2:b" 2 true).2 in
  MemoryStorage.data (BotManager.storage m') !! status_key "1:a" = Some (VStr "active") /\
  BotManager.tasks m' !! 0%nat = BotManager.tasks m !! 0%nat.
Proof.
  intros m m'.
  destruct (stop_bot_frame m "2:b" 2 true) as (_ & H2 & _ & _ & H5).
  split.
  - etrans; [apply (H2 (status_key "1:a")); discriminate | reflexivity].
  - apply H5. discriminate.
Defined.

(** X10. [stop_bot] on a token that has a handle, when the teardown goes
    through: the handle and the entry of [bot_tasks] are removed, and the
    task that was recorded for the token is no longer alive. *)
Theorem stop_bot_removes_handle (m : BotManager.t) (token : string) (now : Z)
    (app : nat) :
  BotManager.bots m !! token = Some app ->
  let m' := (BotManager.stop_bot m token now true).2 in
  BotManager.bots m' !! token = None /\
  BotManager.bot_tasks m' !! token = None /\
  (forall i tk, BotManager.bot_tasks m !! token = Some i ->
     BotManager.tasks m' !! i = Some tk -> BotManager.live tk = false).
Proof.
  intros Hb m'. subst m'. unfold BotManager.stop_bot. rewrite Hb. cbn.
  rewrite !lookup_delete_eq. split; [done|]. split; [done|].
  intros i tk ->. unfold BotManager.cancel_task.
  destruct (BotManager.tasks m !! i) as [tk0|] eqn:Ht.
  - rewrite list_lookup_insert_eq by (by eapply lookup_lt_Some).
    intros [= <-]. apply cancel_not_live.
  - by rewrite Ht.
Qed.

Lemma stop_bot_removes_handle_witness :
  let m := BotManager.run_bot
             (BotManager.start_bot no_numeral (BotManager.init 0) "1:a" "pass" 1 true true).2
             0 (Some 7%nat) 2 in
  BotManager.bots m !! "1:a" = Some 7%nat /\
  BotManager.bots (BotManager.stop_bot m "1:a" 3 true).2 !! "1:a" = None.
Proof.
  intros m. split; [reflexivity|].
  exact (proj1 (stop_bot_removes_handle m "1:a" 3 7 eq_refl)).
Defined.

(** X11. [stop_bot] on a token that has a handle, when the teardown raises:
    the handle, the entry of [bot_tasks] and the tasks stay as they are,
    while the status becomes [stopped]; the status query then answers
    [stopped] with [is_running] true (the status key carrying no expiry
    instant). *)
Theorem stop_bot_failed_teardown (m : BotManager.t) (token : string)
    (now later : Z) (app : nat) :
  BotManager.bots m !! token = Some app ->
  MemoryStorage.expiry (BotManager.storage m) !! status_key token = None ->
  let m' := (BotManager.stop_bot m token now false).2 in
  BotManager.bots m' = BotManager.bots m /\
  BotManager.bot_tasks m' = BotManager.bot_tasks m /\
  BotManager.tasks m' = BotManager.tasks m /\
  BotManager.info_status (BotManager.get_bot_info m' token later).1 = VStr "stopped" /\
  BotManager.info_is_running (BotManager.get_bot_info m' token later).1 = true.
Proof.
  intros Hb He m'.
  assert (Hm : m' = BotManager.set_status m token "stopped" now).
  { subst m'. unfold BotManager.stop_bot. by rewrite Hb. }
  split; [by rewrite Hm|]. split; [by rewrite Hm|]. split; [by rewrite Hm|].
  split; [by apply stop_bot_status_query|].
  unfold BotManager.get_bot_info.
  repeat match goal with |- context [MemoryStorage.get ?s ?k ?d ?n] =>
    destruct (MemoryStorage.get s k d n) end.
  cbn. rewrite Hm. cbn. rewrite Hb. done.
Qed.

Lemma stop_bot_failed_teardown_witness :
  let m := BotManager.run_bot
             (BotManager.start_bot no_numeral (BotManager.init 0) "1:a" "pass" 1 true true).2
             0 (Some 7%nat) 2 in
  let m' := (BotManager.stop_bot m "1:a" 3 false).2 in
  BotManager.info_status (BotManager.get_bot_info m' "1:a" 4).1 = VStr "stopped" /\
  BotManager.info_is_running (BotManager.get_bot_info m' "1:a" 4).1 = true.
Proof.
  intros m m'.
  destruct (stop_bot_failed_teardown m "1:a" 3 4 7 eq_refl eq_refl)
    as (_ & _ & _ & H4 & H5).
  split; [exact H4 | exact H5].
Defined.

Section StartFacts.

Import BotManager.

Variable str_int : string -> option Z.

Implicit Types (m : BotManager.t) (token code : string) (now : Z).

(** The manager that [start_bot] works on after its first statement. *)
Lemma start_bot_first_step m token now td k :
  let m1 := match bots m !! token with
            | Some _ => (stop_bot m token now td).2
            | None => m
            end in
  MemoryStorage.expiry (storage m1) = MemoryStorage.expiry (storage m) /\
  (k <> status_key token ->
   MemoryStorage.data (storage m1) !! k = MemoryStorage.data (storage m) !! k).
Proof.
  intros m1. subst m1. destruct (bots m !! token); [|done].
  split; [apply stop_bot_expiry|]. intros Hk. by rewrite stop_bot_data, decide_False.
Qed.

Lemma bot_key_fields_ne token f g : f <> g -> bot_key token f <> bot_key token g.
Proof. intros Hne H. by apply bot_key_field_inj in H. Qed.

End StartFacts.

(** The statement of [start_bot_writes_record], for the proofs that follow. *)
Lemma start_bot_writes_record_aux (str_int : string -> option Z) (m : BotManager.t)
    (token code : string) (now : Z) (teardown_ok spawn_ok : bool) :
  let r := BotManager.start_bot str_int m token code now teardown_ok spawn_ok in
  r.1 = true ->
  let st := BotManager.storage r.2 in
  MemoryStorage.data st !! status_key token = Some (VStr "active") /\
  MemoryStorage.data st !! bot_key token "code" = Some (VStr code) /\
  MemoryStorage.data st !! bot_key token "last_active" = Some (VNum now) /\
  MemoryStorage.data st !! bot_key token "created_at" = Some (VNum now) /\
  exists n,
    MemoryStorage.py_int str_int
      (MemoryStorage.get (BotManager.storage m) counter_key (VNum 0) now).1 = Some n /\
    MemoryStorage.data st !! counter_key = Some (VNum (n + 1)).
Proof.
  intros r. subst r. unfold BotManager.start_bot.
  pose proof (start_bot_first_step m token now teardown_ok counter_key) as [He Hd].
  cbn zeta in He, Hd. specialize (Hd ltac:(done)).
  set (m1 := match BotManager.bots m !! token with Some _ => _ | None => m end) in *.
  set (st4 := MemoryStorage.set (MemoryStorage.set (MemoryStorage.set
                (MemoryStorage.set (BotManager.storage m1) _ _ _ _) _ _ _ _) _ _ _ _) _ _ _ _).
  assert (Hread : (MemoryStorage.get st4 counter_key (VNum 0) now).1
                  = (MemoryStorage.get (BotManager.storage m) counter_key (VNum 0) now).1).
  { rewrite !get_value. subst st4. cbn [MemoryStorage.set MemoryStorage.data
      MemoryStorage.expiry]. rewrite !lookup_insert_ne by done. by rewrite He, Hd. }
  destruct (incr_effect_aux str_int st4 counter_key now) as (Hn & Hother & _).
  cbn zeta in Hn, Hother.
  assert (Hval : forall n, (MemoryStorage.incr str_int st4 counter_key now).1 = Some n ->
            MemoryStorage.py_int str_int
              (MemoryStorage.get st4 counter_key (VNum 0) now).1 = Some (n - 1)).
  { intros n. unfold MemoryStorage.incr, MemoryStorage.incr_read.
    destruct (MemoryStorage.get st4 counter_key (VNum 0) now) as [v s1]. cbn [fst].
    destruct (MemoryStorage.py_int str_int v) as [val|]; cbn; [|done].
    intros [= <-]. f_equal. lia. }
  destruct (MemoryStorage.incr str_int st4 counter_key now) as [[n|] st5];
    [|done]. destruct spawn_ok; [|done]. intros _. cbn [snd fst BotManager.storage] in *.
  assert (Hk : forall k, k <> counter_key ->
            MemoryStorage.data st5 !! k = MemoryStorage.data st4 !! k).
  { intros k Hk. by apply Hother. }
  subst st4. cbn [MemoryStorage.set MemoryStorage.data] in Hk.
  repeat split.
  - rewrite Hk by done.
    rewrite !(lookup_insert_ne _ _ (status_key token)) by (by apply bot_key_fields_ne).
    apply lookup_insert_eq.
  - rewrite Hk by done.
    rewrite !(lookup_insert_ne _ _ (bot_key token "code")) by (by apply bot_key_fields_ne).
    apply lookup_insert_eq.
  - rewrite Hk by done.
    rewrite !(lookup_insert_ne _ _ (bot_key token "last_active"))
      by (by apply bot_key_fields_ne).
    apply lookup_insert_eq.
  - rewrite Hk by done. apply lookup_insert_eq.
  - exists (n - 1). rewrite <- Hread. split; [by apply Hval|].
    replace (n - 1 + 1) with n by lia. by apply Hn.
Qed.

(** X12. When [start_bot] returns [True] the record of the bot is written:
    the status is [active], the code is the one given, [created_at] and
    [last_active] are the instant of the call (a restart resets
    [created_at]), and the counter under ["stats:bots_created"] is one more
    than the number [incr] read. *)
Theorem start_bot_writes_record (str_int : string -> option Z) (m : BotManager.t)
    (token code : string) (now : Z) (teardown_ok spawn_ok : bool) :
  let r := BotManager.start_bot str_int m token code now teardown_ok spawn_ok in
  r.1 = true ->
  let st := BotManager.storage r.2 in
  MemoryStorage.data st !! status_key token = Some (VStr "active") /\
  MemoryStorage.data st !! bot_key token "code" = Some (VStr code) /\
  MemoryStorage.data st !! bot_key token "last_active" = Some (VNum now) /\
  MemoryStorage.data st !! bot_key token "created_at" = Some (VNum now) /\
  exists n,
    MemoryStorage.py_int str_int
      (MemoryStorage.get (BotManager.storage m) counter_key (VNum 0) now).1 = Some n /\
    MemoryStorage.data st !! counter_key = Some (VNum (n + 1)).
Proof.
  exact (start_bot_writes_record_aux str_int m token code now teardown_ok spawn_ok).
Qed.

Lemma start_bot_writes_record_witness :
  let r := BotManager.start_bot no_numeral (BotManager.init 0) "1:a" "pass" 5 true true in
  r.1 = true /\
  MemoryStorage.data (BotManager.storage r.2) !! status_key "1:a" = Some (VStr "active").
Proof.
  intros r. split; [reflexivity|].
  exact (proj1 (start_bot_writes_record no_numeral (BotManager.init 0) "1:a" "pass" 5
                  true true eq_refl)).
Defined.

(** ** The result of a call of [start_bot] *)





Section SweptFacts.

Import MemoryStorage.

Implicit Types (s : MemoryStorage.t) (key : string) (now : Z).

Lemma swept_refl now s : swept now s s.
Proof. split; [done|]. intros k. by left. Qed.

Lemma swept_expired now s s' k :
  swept now s s' -> expired s' k now = true -> expired s k now = true.
Proof.
  intros [_ H] Hx. destruct (H k) as [[_ He]|[? _]]; [|done].
  unfold expired in *. by rewrite <- He.
Qed.

Lemma swept_trans now s1 s2 s3 : swept now s1 s2 -> swept now s2 s3 -> swept now s1 s3.
Proof.
  intros H12 H23. split; [destruct H12, H23; congruence|]. intros k.
  destruct (proj2 H23 k) as [[Hd He]|(Hx & Hd & He)].
  - destruct (proj2 H12 k) as [[Hd' He']|(Hx' & Hd' & He')].
    + left. split; congruence.
    + right. repeat split; [done|congruence..].
  - right. split; [by eapply swept_expired|done].
Qed.

Lemma swept_get now s key dflt : swept now s (get s key dflt now).2.
Proof.
  unfold get. destruct (expired s key now) eqn:Hx; [|apply swept_refl].
  split; [done|]. intros k. cbn. destruct (decide (key = k)) as [<-|Hne].
  - right. by rewrite !lookup_delete_eq.
  - left. by rewrite !lookup_delete_ne.
Qed.

Lemma swept_well_formed now s s' : swept now s s' -> well_formed s -> well_formed s'.
Proof.
  rewrite !well_formed_lookup. intros [_ H] Hwf k Hk.
  destruct (H k) as [[Hd He]|(_ & _ & He)].
  - rewrite Hd. apply Hwf. by rewrite <- He.
  - rewrite He in Hk. by destruct Hk.
Qed.

(** A read after reads: the value is the one [get] returns before them. *)
Lemma swept_get_value now s s' key dflt :
  swept now s s' -> (get s' key dflt now).1 = (get s key dflt now).1.
Proof.
  intros [_ H]. rewrite !get_value. destruct (H key) as [[-> ->]|(Hx & -> & ->)]; [done|].
  apply expired_spec in Hx as (e & -> & Hlt). by rewrite (proj2 (Z.ltb_lt _ _) Hlt).
Qed.

End SweptFacts.

Section DeleteFacts.

Implicit Types (T f : string).

Lemma split_bot_key T f :
  split colon (bot_key T f) = ("bot" :: split colon T ++ split colon f)%list.
Proof.
  unfold bot_key.
  change ("bot:" ++ T ++ ":" ++ f) with ("bot" ++ String colon (T ++ String colon f)).
  by rewrite !split_append.
Qed.

(** No key of a bot's own record contains the pattern of [delete_bot]. *)
Lemma own_key_not_matched T f :
  has_char colon f = false -> (forall g, f <> String "*" g) ->
  contains (bot_key T "*") (bot_key T f) = false.
Proof.
  intros Hf Hstar. destruct (contains (bot_key T "*") (bot_key T f)) eqn:Hc; [|done].
  exfalso. apply contains_append in Hc as (a & b & Hc).
  apply (f_equal (split colon)) in Hc. rewrite split_bot_key, (split_no_sep _ _ Hf) in Hc.
  replace (a ++ bot_key T "*" ++ b)
    with ((a ++ "bot") ++ String colon (T ++ String colon (String "*" b))) in Hc
    by (unfold bot_key; by rewrite <- !append_assoc).
  rewrite !split_append in Hc.
  destruct (split_cons colon (a ++ "bot")) as (x & xs & Hx). rewrite Hx in Hc.
  assert (Hz : exists seg rest, split colon (String "*" b) = String "*" seg :: rest).
  { cbn. destruct (split_cons colon b) as (y & ys & ->). eauto. }
  destruct Hz as (seg & rest & Hz). rewrite Hz in Hc.
  assert (Hlen : xs = [] /\ rest = []).
  { apply (f_equal length) in Hc. cbn in Hc. rewrite !length_app in Hc. cbn in Hc.
    destruct xs, rest; cbn in Hc; try done; lia. }
  destruct Hlen as [-> ->].
  change ("bot" :: split colon T ++ [f])%list
    with (("bot" :: split colon T) ++ [f])%list in Hc.
  change ([x] ++ split colon T ++ [String "*" seg])%list
    with ((x :: split colon T) ++ [String "*" seg])%list in Hc.
  apply app_inj_2 in Hc as [_ Hc]; [|done]. injection Hc as Hc. by apply (Hstar seg).
Qed.

End DeleteFacts.

(** ** The tokens in the list of bots *)

Section MaskFacts.

Implicit Types (s t T f key tok : string) (sep : ascii).




End MaskFacts.



(** The statement of [delete_bot_effect], for the proofs that follow. *)
Lemma delete_bot_effect_aux (m : BotManager.t) (token : string) (now : Z)
    (teardown_ok : bool) :
  let m1 := (BotManager.stop_bot m token now teardown_ok).2 in
  let r := BotManager.delete_bot m token now teardown_ok in
  r.1 = true /\
  BotManager.bots r.2 = BotManager.bots m1 /\
  (forall k,
     MemoryStorage.data (BotManager.storage r.2) !! k
     = if contains (bot_key token "*") k || String.eqb ("webhook:" ++ token) k
       then None else MemoryStorage.data (BotManager.storage m1) !! k) /\
  (forall f, has_char colon f = false -> (forall g, f <> String "*" g) ->
     MemoryStorage.data (BotManager.storage r.2) !! bot_key token f
     = MemoryStorage.data (BotManager.storage m1) !! bot_key token f) /\
  MemoryStorage.data (BotManager.storage r.2) !! status_key token = Some (VStr "stopped").
Proof.
  intros m1 r.
  assert (Hk : forall k,
     MemoryStorage.data (BotManager.storage r.2) !! k
     = if contains (bot_key token "*") k || String.eqb ("webhook:" ++ token) k
       then None else MemoryStorage.data (BotManager.storage m1) !! k).
  { intros k. subst r. unfold BotManager.delete_bot. fold m1. cbn [snd fst
      BotManager.storage BotManager.with_storage].
    rewrite delete_data, fold_delete_data.
    destruct (String.eqb_spec ("webhook:" ++ token) k) as [->|Hw].
    - rewrite decide_True by done. by rewrite orb_true_r.
    - rewrite decide_False by done. rewrite orb_false_r.
      destruct (contains (bot_key token "*") k) eqn:Hc.
      + destruct (decide _) as [|Hn]; [done|].
        destruct (MemoryStorage.data (BotManager.storage m1) !! k) eqn:Hd; [|done].
        exfalso. apply Hn, keys_pattern_spec; [done|]. split; [by eexists|done].
      + rewrite decide_False; [done|]. intros Hin.
        apply keys_pattern_spec in Hin as [_ Hin]; [|done]. congruence. }
  assert (Hown : forall f, has_char colon f = false -> (forall g, f <> String "*" g) ->
     MemoryStorage.data (BotManager.storage r.2) !! bot_key token f
     = MemoryStorage.data (BotManager.storage m1) !! bot_key token f).
  { intros f Hf Hs. rewrite Hk, own_key_not_matched by done.
    destruct (String.eqb_spec ("webhook:" ++ token) (bot_key token f)) as [H|]; [|done].
    by apply webhook_key_not_bot_key in H. }
  split; [done|]. split; [done|]. split; [done|]. split; [done|].
  unfold status_key. rewrite Hown by done. apply stop_bot_status.
Qed.



(** The statement of [get_bot_info_reads], for the proofs that follow. *)
Lemma get_bot_info_reads_aux (m : BotManager.t) (token : string) (now : Z) :
  let r := BotManager.get_bot_info m token now in
  let st := BotManager.storage m in
  BotManager.bots r.2 = BotManager.bots m /\
  BotManager.bot_tasks r.2 = BotManager.bot_tasks m /\
  BotManager.tasks r.2 = BotManager.tasks m /\
  MemoryStorage.swept now st (BotManager.storage r.2) /\
  BotManager.info_status r.1
    = (MemoryStorage.get st (status_key token) (VStr "not_found") now).1 /\
  BotManager.info_created_at r.1
    = (MemoryStorage.get st (bot_key token "created_at") VNone now).1 /\
  BotManager.info_last_active r.1
    = (MemoryStorage.get st (bot_key token "last_active") VNone now).1 /\
  BotManager.info_memory_used r.1
    = (MemoryStorage.get st (bot_key token "memory") (VNum 0) now).1 /\
  BotManager.info_is_running r.1 = bool_decide (is_Some (BotManager.bots m !! token)) /\
  ((forall f, MemoryStorage.data st !! bot_key token f = None) ->
   r.1 = BotManager.mkInfo (VStr "not_found") VNone VNone (VNum 0)
           (bool_decide (is_Some (BotManager.bots m !! token)))).
Proof.
  intros r st. subst r. unfold BotManager.get_bot_info. fold st.
  pose proof (swept_get now st (status_key token) (VStr "not_found")) as H1.
  destruct (MemoryStorage.get st (status_key token) (VStr "not_found") now)
    as [v1 s1] eqn:E1. cbn [snd] in H1.
  pose proof (swept_get now s1 (bot_key token "created_at") VNone) as H2.
  pose proof (swept_get_value now st s1 (bot_key token "created_at") VNone H1) as V2.
  destruct (MemoryStorage.get s1 (bot_key token "created_at") VNone now)
    as [v2 s2] eqn:E2. cbn [snd fst] in H2, V2.
  pose proof (swept_trans _ _ _ _ H1 H2) as H12.
  pose proof (swept_get now s2 (bot_key token "last_active") VNone) as H3.
  pose proof (swept_get_value now st s2 (bot_key token "last_active") VNone H12) as V3.
  destruct (MemoryStorage.get s2 (bot_key token "last_active") VNone now)
    as [v3 s3] eqn:E3. cbn [snd fst] in H3, V3.
  pose proof (swept_trans _ _ _ _ H12 H3) as H13.
  pose proof (swept_get now s3 (bot_key token "memory") (VNum 0)) as H4.
  pose proof (swept_get_value now st s3 (bot_key token "memory") (VNum 0) H13) as V4.
  destruct (MemoryStorage.get s3 (bot_key token "memory") (VNum 0) now)
    as [v4 s4] eqn:E4. cbn [snd fst] in H4, V4.
  pose proof (swept_trans _ _ _ _ H13 H4) as H14.
  cbn. repeat split; try done.
  - apply H14.
  - apply H14.
  - intros Hnone. assert (Hd : forall f d,
        (MemoryStorage.get st (bot_key token f) d now).1 = d).
    { intros f d. rewrite get_value, Hnone. cbn.
      destruct (MemoryStorage.expiry st !! bot_key token f) as [e|]; [|done].
      by destruct (Z.ltb e now). }
    f_equal.
    + change v1 with (v1, s1).1. rewrite <- E1. apply (Hd "status").
    + rewrite V2. apply Hd.
    + rewrite V3. apply Hd.
    + rewrite V4. apply Hd.
Qed.

(** X14. [get_bot_info] changes neither the handles nor the tasks and adds
    nothing to the store: it only drops keys that are expired. Each field of
    its answer is what [get] returns on the store before the call, and
    [is_running] tells whether the token has a handle; a token without data
    is answered [not_found], [None], [None], 0. *)
Theorem get_bot_info_reads (m : BotManager.t) (token : string) (now : Z) :
  let r := BotManager.get_bot_info m token now in
  let st := BotManager.storage m in
  BotManager.bots r.2 = BotManager.bots m /\
  BotManager.bot_tasks r.2 = BotManager.bot_tasks m /\
  BotManager.tasks r.2 = BotManager.tasks m /\
  MemoryStorage.swept now st (BotManager.storage r.2) /\
  BotManager.info_status r.1
    = (MemoryStorage.get st (status_key token) (VStr "not_found") now).1 /\
  BotManager.info_created_at r.1
    = (MemoryStorage.get st (bot_key token "created_at") VNone now).1 /\
  BotManager.info_last_active r.1
    = (MemoryStorage.get st (bot_key token "last_active") VNone now).1 /\
  BotManager.info_memory_used r.1
    = (MemoryStorage.get st (bot_key token "memory") (VNum 0) now).1 /\
  BotManager.info_is_running r.1 = bool_decide (is_Some (BotManager.bots m !! token)) /\
  ((forall f, MemoryStorage.data st !! bot_key token f = None) ->
   r.1 = BotManager.mkInfo (VStr "not_found") VNone VNone (VNum 0)
           (bool_decide (is_Some (BotManager.bots m !! token)))).
Proof. exact (get_bot_info_reads_aux m token now). Qed.

Lemma get_bot_info_reads_witness :
  (BotManager.get_bot_info (BotManager.init 0) "1:a" 1).1
  = BotManager.mkInfo (VStr "not_found") VNone VNone (VNum 0) false.
Proof.
  refine (proj2 (proj2 (proj2 (proj2 (proj2 (proj2 (proj2 (proj2 (proj2
    (get_bot_info_reads (BotManager.init 0) "1:a" 1))))))))) _).
  intros f. reflexivity.
Defined.

(** X15. In the list of [get_all_bots], the summary made from the status key
    of a token [T] shows only the part of [T] before its first colon, cut
    to ten characters and followed by three dots; it contains no colon. *)
Theorem summary_shows_first_segment (m m' : BotManager.t) (now : Z)
    (bots : list BotManager.summary) (i : nat) (T : string)
    (e : BotManager.summary) :
  BotManager.get_all_bots m now = (Some bots, m') ->
  MemoryStorage.keys (BotManager.storage m) "bot:*:status" !! i
    = Some (status_key T) ->
  bots !! i = Some e ->
  exists x rest,
    split colon T = x :: rest /\
    BotManager.sum_token e = take_str 10 x ++ "..." /\
    has_char colon (BotManager.sum_token e) = false.
Proof.
  intros H Hk He. unfold BotManager.get_all_bots in H.
  destruct (BotManager.all_bots_loop _ (BotManager.storage m) now)
    as [r st] eqn:Hl.
  injection H as -> _.
  destruct (all_bots_loop_entry _ _ _ _ _ Hl i _ e Hk He) as (tok & Hs & Ht).
  rewrite split_status_key in Hs.
  destruct (split_cons colon T) as (x & xs & HT). rewrite HT in Hs. cbn in Hs.
  injection Hs as <-. exists x, xs. split; [done|]. split; [done|].
  rewrite Ht. unfold BotManager.mask.
  rewrite has_char_append, has_char_take; [done|].
  by apply (split_head_no_sep _ _ _ _ HT).
Qed.

Lemma summary_shows_first_segment_witness :
  let m := (BotManager.stop_bot (BotManager.init 0) "12345678901234:bot:*" 1 true).2 in
  exists e, (BotManager.get_all_bots m 2).1 = Some [e] /\
            BotManager.sum_token e = "1234567890...".
Proof.
  intros m. eexists. split; [reflexivity|].
  destruct (summary_shows_first_segment m _ 2 _ 0 "12345678901234:bot:*" _
              eq_refl eq_refl eq_refl) as (x & rest & Hx & Ht & _).
  rewrite Ht. injection Hx as <- _. reflexivity.
Defined.

Section PingFacts.

Import BotManager.

Implicit Types (st : MemoryStorage.t) (token T : string) (now : Z).

Lemma bots_tokens (m : BotManager.t) T :
  T ∈ (map_to_list (bots m)).*1 <-> is_Some (bots m !! T).
Proof.
  rewrite list_elem_of_fmap. split.
  - intros ([k v] & -> & H). apply elem_of_map_to_list in H. eauto.
  - intros [v H]. exists (T, v). split; [done|]. by apply elem_of_map_to_list.
Qed.

Lemma ping_bot_data st token now k :
  MemoryStorage.data (ping_bot st token now) !! k
  = if decide (k = status_key token) then
      (if MemoryStorage.expired st (status_key token) now then None
       else MemoryStorage.data st !! k)
    else if decide (k = bot_key token "last_active") then Some (VNum now)
    else MemoryStorage.data st !! k.
Proof.
  unfold ping_bot, MemoryStorage.get.
  set (st1 := MemoryStorage.set st _ _ _ _).
  assert (Hx : MemoryStorage.expired st1 (status_key token) now
               = MemoryStorage.expired st (status_key token) now) by done.
  rewrite Hx.
  destruct (decide (k = status_key token)) as [->|Hk].
  - destruct (MemoryStorage.expired st (status_key token) now); cbn.
    + apply lookup_delete_eq.
    + apply lookup_insert_ne. intros H. symmetry in H. by apply status_key_not_active in H.
  - assert (Hd : MemoryStorage.data st1 !! k
             = if decide (k = bot_key token "last_active") then Some (VNum now)
               else MemoryStorage.data st !! k).
    { cbn. destruct (decide (k = bot_key token "last_active")) as [->|];
        [apply lookup_insert_eq | by apply lookup_insert_ne]. }
    destruct (MemoryStorage.expired st (status_key token) now); cbn [snd]; [|done].
    cbn [MemoryStorage.delete MemoryStorage.data]. by rewrite lookup_delete_ne.
Qed.

Lemma ping_bot_stats st token now :
  MemoryStorage.stats (ping_bot st token now) = MemoryStorage.stats st.
Proof. unfold ping_bot. by rewrite get_stats_unchanged. Qed.

Lemma ping_fold now tokens : forall st,
  let st' := fold_left (fun st token => ping_bot st token now) tokens st in
  (forall T, T ∈ tokens ->
     MemoryStorage.data st' !! bot_key T "last_active" = Some (VNum now)) /\
  (forall T, MemoryStorage.data st !! bot_key T "last_active" = Some (VNum now) ->
     MemoryStorage.data st' !! bot_key T "last_active" = Some (VNum now)) /\
  (forall T v, MemoryStorage.data st' !! status_key T = Some v ->
     MemoryStorage.data st !! status_key T = Some v) /\
  MemoryStorage.stats st' = MemoryStorage.stats st.
Proof.
  induction tokens as [|x tokens IH]; intros st; cbn zeta.
  - repeat split; try done. intros T HT. by apply elem_of_nil in HT.
  - cbn [fold_left]. destruct (IH (ping_bot st x now)) as (I1 & I2 & I3 & I4).
    assert (Hkeep : forall T,
      MemoryStorage.data st !! bot_key T "last_active" = Some (VNum now) ->
      MemoryStorage.data (ping_bot st x now) !! bot_key T "last_active"
      = Some (VNum now)).
    { intros T HT. rewrite ping_bot_data.
      rewrite decide_False by (intros H; symmetry in H; by apply status_key_not_active in H).
      by destruct (decide _). }
    repeat split.
    + intros T [->|HT]%elem_of_cons; [|by apply I1]. apply I2.
      rewrite ping_bot_data.
      rewrite decide_False by (intros H; symmetry in H; by apply status_key_not_active in H).
      by rewrite decide_True.
    + intros T HT. by apply I2, Hkeep.
    + intros T v HT. apply I3 in HT. rewrite ping_bot_data in HT.
      destruct (decide (status_key T = status_key x)) as [Heq|Hne].
      * by destruct (MemoryStorage.expired st (status_key x) now).
      * by rewrite decide_False in HT by apply status_key_not_active.
    + by rewrite I4, ping_bot_stats.
Qed.

End PingFacts.

Section PingStatus.

Import BotManager.

Implicit Types (st : MemoryStorage.t) (token T : string) (now : Z).

Lemma status_key_inj T T' : status_key T = status_key T' -> T = T'.
Proof.
  unfold status_key, bot_key. intros H. apply String.app_inj in H.
  apply (append_inj_length T T' (":" ++ "status") (":" ++ "status")); [|done].
  apply (f_equal String.length) in H. rewrite !length_append in H. lia.
Qed.

Lemma ping_bot_expiry st token now k :
  MemoryStorage.expiry (ping_bot st token now) !! k
  = if decide (k = status_key token) then
      (if MemoryStorage.expired st (status_key token) now then None
       else MemoryStorage.expiry st !! k)
    else MemoryStorage.expiry st !! k.
Proof.
  unfold ping_bot, MemoryStorage.get.
  set (st1 := MemoryStorage.set st _ _ _ _).
  assert (Hx : MemoryStorage.expired st1 (status_key token) now
               = MemoryStorage.expired st (status_key token) now) by done.
  rewrite Hx.
  destruct (MemoryStorage.expired st (status_key token) now); cbn [snd].
  - cbn [MemoryStorage.delete MemoryStorage.expiry].
    destruct (decide (k = status_key token)) as [->|Hk];
      [apply lookup_delete_eq | by rewrite lookup_delete_ne].
  - by destruct (decide (k = status_key token)).
Qed.

(** One ping and the status key of [T]: the ping of [T] itself drops the key
    when it is expired; nothing else touches it. *)
Lemma ping_bot_status st token now T :
  (token = T /\ MemoryStorage.expired st (status_key T) now = true /\
   MemoryStorage.data (ping_bot st token now) !! status_key T = None /\
   MemoryStorage.expiry (ping_bot st token now) !! status_key T = None) \/
  ((token <> T \/ MemoryStorage.expired st (status_key T) now = false) /\
   MemoryStorage.data (ping_bot st token now) !! status_key T
     = MemoryStorage.data st !! status_key T /\
   MemoryStorage.expiry (ping_bot st token now) !! status_key T
     = MemoryStorage.expiry st !! status_key T).
Proof.
  rewrite ping_bot_data, ping_bot_expiry.
  destruct (decide (status_key T = status_key token)) as [Heq|Hne].
  - assert (token = T) as ->.
    { symmetry. by apply status_key_inj. }
    destruct (MemoryStorage.expired st (status_key T) now) eqn:Hx.
    + by left.
    + right. split; [by right | done].
  - right. split; [left; by intros -> |].
    by rewrite decide_False by apply status_key_not_active.
Qed.

Lemma ping_fold_status now T tokens : forall st,
  let st' := fold_left (fun st token => ping_bot st token now) tokens st in
  (T ∈ tokens -> MemoryStorage.expired st (status_key T) now = true ->
   MemoryStorage.data st' !! status_key T = None /\
   MemoryStorage.expiry st' !! status_key T = None) /\
  (T ∉ tokens \/ MemoryStorage.expired st (status_key T) now = false ->
   MemoryStorage.data st' !! status_key T = MemoryStorage.data st !! status_key T /\
   MemoryStorage.expiry st' !! status_key T = MemoryStorage.expiry st !! status_key T).
Proof.
  induction tokens as [|x tokens IH]; intros st; cbn zeta.
  - split; [by intros H%elem_of_nil | done].
  - cbn [fold_left]. destruct (IH (ping_bot st x now)) as [I1 I2].
    assert (Hgone : forall s, MemoryStorage.expiry s !! status_key T = None ->
                      MemoryStorage.expired s (status_key T) now = false).
    { intros s Hs. unfold MemoryStorage.expired. by rewrite Hs. }
    assert (Hsame : forall s, MemoryStorage.expiry s !! status_key T
                       = MemoryStorage.expiry st !! status_key T ->
                     MemoryStorage.expired s (status_key T) now
                     = MemoryStorage.expired st (status_key T) now).
    { intros s Hs. unfold MemoryStorage.expired. by rewrite Hs. }
    destruct (ping_bot_status st x now T)
      as [(-> & Hx & Hd & He)|(Hcase & Hd & He)].
    + split.
      * intros _ _. destruct I2 as [I2d I2e]; [right; by apply Hgone|].
        by rewrite I2d, I2e.
      * intros [Hn|Hn]; [exfalso; apply Hn; by left | congruence].
    + split.
      * intros HT Hx. apply elem_of_cons in HT as [->|HT].
        -- destruct Hcase as [?|Hf]; [done | congruence].
        -- apply I1; [done|]. by rewrite (Hsame _ He).
      * intros Hn. rewrite <- Hd, <- He. apply I2.
        destruct Hn as [Hn|Hn].
        -- left. intros HT. apply Hn. by right.
        -- right. by rewrite (Hsame _ He).
Qed.

End PingStatus.

(** The statement of [ping_active_bots_refreshes], for the proofs that follow. *)
Lemma ping_active_bots_refreshes_aux (m : BotManager.t) (now : Z) :
  let m' := BotManager.ping_active_bots m now in
  BotManager.bots m' = BotManager.bots m /\
  BotManager.bot_tasks m' = BotManager.bot_tasks m /\
  BotManager.tasks m' = BotManager.tasks m /\
  MemoryStorage.stats (BotManager.storage m') = MemoryStorage.stats (BotManager.storage m) /\
  (forall T, is_Some (BotManager.bots m !! T) ->
     MemoryStorage.data (BotManager.storage m') !! bot_key T "last_active"
     = Some (VNum now)) /\
  (forall T v,
     MemoryStorage.data (BotManager.storage m') !! status_key T = Some v ->
     MemoryStorage.data (BotManager.storage m) !! status_key T = Some v) /\
  (forall T,
     is_Some (BotManager.bots m !! T) ->
     MemoryStorage.expired (BotManager.storage m) (status_key T) now = true ->
     MemoryStorage.data (BotManager.storage m') !! status_key T = None) /\
  (forall T,
     BotManager.bots m !! T = None \/
     MemoryStorage.expired (BotManager.storage m) (status_key T) now = false ->
     MemoryStorage.data (BotManager.storage m') !! status_key T
     = MemoryStorage.data (BotManager.storage m) !! status_key T).
Proof.
  intros m'. subst m'. unfold BotManager.ping_active_bots. cbn.
  destruct (ping_fold now (map_to_list (BotManager.bots m)).*1 (BotManager.storage m))
    as (H1 & _ & H3 & H4).
  repeat split; try done.
  - intros T HT. by apply H1, bots_tokens.
  - intros T HT Hx.
    destruct (ping_fold_status now T (map_to_list (BotManager.bots m)).*1
                (BotManager.storage m)) as [I1 _].
    apply I1; [by apply bots_tokens | done].
  - intros T HT.
    destruct (ping_fold_status now T (map_to_list (BotManager.bots m)).*1
                (BotManager.storage m)) as [_ I2].
    apply I2. destruct HT as [HT|HT]; [left | by right].
    rewrite bots_tokens, HT. by intros [? ?].
Qed.

(** X16. [ping_active_bots] sets [last_active] to the instant of the call
    for every token that has a handle. It changes no handle, no task and no
    counter of [stats], and it never changes a stored status: the status
    key of a token with a handle is dropped when it is expired at the call,
    and every other status key keeps its entry. *)
Theorem ping_active_bots_refreshes (m : BotManager.t) (now : Z) :
  let m' := BotManager.ping_active_bots m now in
  BotManager.bots m' = BotManager.bots m /\
  BotManager.bot_tasks m' = BotManager.bot_tasks m /\
  BotManager.tasks m' = BotManager.tasks m /\
  MemoryStorage.stats (BotManager.storage m') = MemoryStorage.stats (BotManager.storage m) /\
  (forall T, is_Some (BotManager.bots m !! T) ->
     MemoryStorage.data (BotManager.storage m') !! bot_key T "last_active"
     = Some (VNum now)) /\
  (forall T v,
     MemoryStorage.data (BotManager.storage m') !! status_key T = Some v ->
     MemoryStorage.data (BotManager.storage m) !! status_key T = Some v) /\
  (forall T,
     is_Some (BotManager.bots m !! T) ->
     MemoryStorage.expired (BotManager.storage m) (status_key T) now = true ->
     MemoryStorage.data (BotManager.storage m') !! status_key T = None) /\
  (forall T,
     BotManager.bots m !! T = None \/
     MemoryStorage.expired (BotManager.storage m) (status_key T) now = false ->
     MemoryStorage.data (BotManager.storage m') !! status_key T
     = MemoryStorage.data (BotManager.storage m) !! status_key T).
Proof. exact (ping_active_bots_refreshes_aux m now). Qed.

Lemma ping_active_bots_refreshes_witness :
  let m := BotManager.run_bot
             (BotManager.start_bot no_numeral (BotManager.init 0) "1:a" "pass" 1 true true).2
             0 (Some 7%nat) 2 in
  MemoryStorage.data (BotManager.storage (BotManager.ping_active_bots m 9))
    !! bot_key "1:a" "last_active" = Some (VNum 9) /\
  MemoryStorage.data (BotManager.storage (BotManager.ping_active_bots m 9))
    !! status_key "1:a" = Some (VStr "active").
Proof.
  intros m.
  destruct (ping_active_bots_refreshes m 9) as (_ & _ & _ & _ & H & _ & _ & Hs).
  split; [apply H; by eexists|].
  rewrite (Hs "1:a"); [reflexivity | by right].
Defined.

(** X17. [webhook_handler] answers [ok] exactly when the status it reads is
    [active] and the body of the request parses. When the status is not
    [active] it writes nothing (the read can only drop expired keys). When
    it is, [last_active] becomes the instant of the call, also for a body
    that does not parse. Accepted, the update is stored for 300 ticks: a
    read of [last_update] returns it up to that instant plus 300 and [None]
    afterwards. Handles are untouched. *)
Theorem webhook_handler_effect (m : BotManager.t) (token : string)
    (body : option string) (now later : Z) :
  let r := webhook_handler m token body now in
  let st' := BotManager.storage r.2 in
  let status :=
    (MemoryStorage.get (BotManager.storage m) (status_key token) VNone now).1 in
  BotManager.bots r.2 = BotManager.bots m /\
  (r.1 = true <-> status = VStr "active" /\ is_Some body) /\
  (status <> VStr "active" -> MemoryStorage.swept now (BotManager.storage m) st') /\
  (status = VStr "active" ->
   MemoryStorage.data st' !! bot_key token "last_active" = Some (VNum now)) /\
  (forall update, status = VStr "active" -> body = Some update ->
   MemoryStorage.expiry st' !! bot_key token "last_update" = Some (now + 300) /\
   (later <= now + 300 ->
    (MemoryStorage.get st' (bot_key token "last_update") VNone later).1 = VStr update) /\
   (now + 300 < later ->
    (MemoryStorage.get st' (bot_key token "last_update") VNone later).1 = VNone)).
Proof.
  intros r st' status. subst st' r status. unfold webhook_handler.
  pose proof (swept_get now (BotManager.storage m) (status_key token) VNone) as Hs.
  destruct (MemoryStorage.get (BotManager.storage m) (status_key token) VNone now)
    as [status st1]. cbn [fst snd] in *.
  destruct (bool_decide_reflect (status = VStr "active")) as [->|Hne].
  - set (st2 := MemoryStorage.set st1 (bot_key token "last_active") (VNum now) None now).
    destruct body as [update|]; cbn [fst snd BotManager.storage BotManager.with_storage
      BotManager.bots].
    + split; [done|]. split; [split; [by eauto | done]|]. split; [done|]. split.
      * intros _. cbn. rewrite lookup_insert_ne by (intros H; symmetry in H;
          by apply active_key_not_update in H). apply lookup_insert_eq.
      * intros u _ [= <-].
        destruct (set_ttl_then_get_aux st2 (bot_key token "last_update") (VStr update)
                    VNone 300 now later) as (H1 & H2 & _); [done|].
        split; [cbn; apply lookup_insert_eq|]. split.
        -- intros Hl. by rewrite H1.
        -- intros Hl. by rewrite (proj1 (H2 Hl)).
    + split; [done|]. split; [split; [done|by intros [_ [? ?]]]|]. split; [done|].
      split; [|done]. intros _. cbn. apply lookup_insert_eq.
  - cbn [fst snd BotManager.storage BotManager.with_storage BotManager.bots].
    split; [done|]. split; [split; [done|by intros [? _]]|]. split; [done|].
    split; [done|]. done.
Qed.

Lemma webhook_handler_effect_witness :
  let m := (BotManager.start_bot no_numeral (BotManager.init 0) "1:a" "pass" 1 true true).2 in
  let r := webhook_handler m "1:a" (Some "{}") 10 in
  r.1 = true /\
  (MemoryStorage.get (BotManager.storage r.2) (bot_key "1:a" "last_update") VNone 310).1
  = VStr "{}" /\
  (MemoryStorage.get (BotManager.storage r.2) (bot_key "1:a" "last_update") VNone 311).1
  = VNone.
Proof.
  intros m r.
  destruct (webhook_handler_effect m "1:a" (Some "{}") 10 310) as (_ & _ & _ & _ & H1).
  destruct (webhook_handler_effect m "1:a" (Some "{}") 10 311) as (_ & _ & _ & _ & H2).
  split; [reflexivity|]. split.
  - apply (H1 "{}" eq_refl eq_refl). lia.
  - apply (H2 "{}" eq_refl eq_refl). lia.
Defined.

(** X18. [upload_bot] refuses an empty token, an empty code and a token
    without colon, and then leaves the state as it is. When it answers
    success the token has a colon, neither text is empty, and the record of
    the bot is stored with the status [active] and the code given. *)
Theorem upload_bot_checks (str_int : string -> option Z) (m : BotManager.t)
    (token code : string) (now : Z) (teardown_ok spawn_ok : bool) :
  let r := upload_bot str_int m token code now teardown_ok spawn_ok in
  (token = "" \/ code = "" \/ has_char colon token = false -> r = (false, m)) /\
  (r.1 = true ->
   token <> "" /\ code <> "" /\ has_char colon token = true /\
   MemoryStorage.data (BotManager.storage r.2) !! status_key token
     = Some (VStr "active") /\
   MemoryStorage.data (BotManager.storage r.2) !! bot_key token "code"
     = Some (VStr code)).
Proof.
  intros r. subst r. unfold upload_bot.
  destruct (String.eqb_spec token "") as [->|Ht]; cbn [orb]; [by split|].
  destruct (String.eqb_spec code "") as [->|Hc]; cbn [orb].
  { split; [done|]. done. }
  destruct (has_char colon token) eqn:Hcol; cbn [negb].
  - split; [by intros [?|[?|?]]|]. intros Hr.
    destruct (start_bot_writes_record_aux str_int m token code now teardown_ok spawn_ok Hr)
      as (H1 & H2 & _).
    done.
  - split; [done|]. done.
Qed.

Lemma upload_bot_checks_witness :
  upload_bot no_numeral (BotManager.init 0) "12345" "pass" 1 true true
  = (false, BotManager.init 0).
Proof.
  apply (upload_bot_checks no_numeral (BotManager.init 0) "12345" "pass" 1 true true).
  right. right. reflexivity.
Defined.

Section ReaperFacts.

Import BotManager.

Implicit Types (m : BotManager.t) (st : MemoryStorage.t) (T : string) (now cutoff : Z).

(** [last_active] of a token as the first loop of [cleanup_memory] reads it. *)
Local Abbreviation activity st T now :=
  (MemoryStorage.get st (bot_key T "last_active") (VNum 0) now).1.

Lemma inactive_bots_spec now cutoff tokens : forall st r st',
  inactive_bots tokens st cutoff now = (r, st') ->
  MemoryStorage.swept now st st' /\
  match r with
  | Some idle =>
      (forall T, T ∈ tokens -> exists n, activity st T now = VNum n) /\
      forall T, T ∈ idle <->
        T ∈ tokens /\ exists n, activity st T now = VNum n /\ n < cutoff
  | None => exists T, T ∈ tokens /\ py_lt (activity st T now) cutoff = None
  end.
Proof.
  induction tokens as [|x tokens IH]; intros st r st' H; cbn [inactive_bots] in H.
  - injection H as <- <-. split; [apply swept_refl|].
    split; [by intros T ?%elem_of_nil|]. intros T. split.
    + by intros ?%elem_of_nil.
    + by intros [?%elem_of_nil _].
  - pose proof (swept_get now st (bot_key x "last_active") (VNum 0)) as Hs.
    destruct (MemoryStorage.get st (bot_key x "last_active") (VNum 0) now)
      as [last st1] eqn:Hg. cbn [snd] in Hs.
    assert (Hlast : activity st x now = last) by (by rewrite Hg).
    destruct (py_lt last cutoff) as [idle|] eqn:Hlt.
    + destruct (inactive_bots tokens st1 cutoff now) as [r2 st2] eqn:Hrec.
      injection H as <- <-. destruct (IH _ _ _ Hrec) as [Hs2 Hr2].
      split; [by eapply swept_trans|].
      assert (Hact : forall T, activity st1 T now = activity st T now).
      { intros T. by apply swept_get_value. }
      destruct r2 as [l|]; cbn.
      * destruct last as [|n|]; try done. injection Hlt as <-.
        destruct Hr2 as [Hnum Hr2]. split.
        { intros T [->|HT]%elem_of_cons; [by exists n|].
          destruct (Hnum T HT) as [n' Hn']. exists n'. by rewrite <- Hact. }
        intros T.
        assert (HT : T ∈ (if Z.ltb n cutoff then x :: l else l) <->
                     (T = x /\ n < cutoff) \/ T ∈ l).
        { destruct (Z.ltb_spec n cutoff).
          - rewrite elem_of_cons. split.
            + intros [->|?]; [by left | by right].
            + intros [[-> _]|?]; [by left | by right].
          - split; [by right|]. intros [[_ ?]|?]; [lia|done]. }
        rewrite HT, Hr2, elem_of_cons. setoid_rewrite Hact. split.
        -- intros [[-> Hn]|[Hin Hn]]; [|by split; [right|]].
           split; [by left|]. exists n. by rewrite Hlast.
        -- intros [[->|Hin] (n' & Hn' & Hlt')].
           ++ left. split; [done|]. rewrite Hlast in Hn'. by injection Hn' as ->.
           ++ right. split; [done|]. by exists n'.
      * destruct Hr2 as (T & HT & Hnone). exists T. split; [by right|].
        by rewrite <- Hact.
    + injection H as <- <-. split; [done|]. exists x. split; [by left|].
      by rewrite Hlast.
Qed.

Lemma stop_all_bots now td idle : forall m T,
  bots (stop_all m idle now td) !! T
  = if decide (T ∈ idle) then (if td T then None else bots m !! T) else bots m !! T.
Proof.
  induction idle as [|x idle IH]; intros m T; cbn [stop_all fold_left].
  - by rewrite decide_False by apply not_elem_of_nil.
  - fold (stop_all (stop_bot m x now (td x)).2 idle now td).
    rewrite IH, stop_bot_bots.
    destruct (decide (T ∈ idle)) as [Hin|Hin].
    + destruct (decide (T ∈ x :: idle)) as [_|Hn]; [|exfalso; apply Hn; by right].
      destruct (td T) eqn:HT; [done|].
      destruct (decide (x = T)) as [->|]; [by rewrite HT|done].
    + destruct (decide (x = T)) as [->|Hne].
      * destruct (decide (T ∈ T :: idle)) as [_|Hn]; [done|]. exfalso. apply Hn. by left.
      * destruct (decide (T ∈ x :: idle)) as [[->|?]%elem_of_cons|_]; done.
Qed.

Lemma stop_all_storage now td idle : forall m,
  let m' := stop_all m idle now td in
  MemoryStorage.expiry (storage m') = MemoryStorage.expiry (storage m) /\
  MemoryStorage.stats (storage m') = MemoryStorage.stats (storage m) /\
  (forall T, T ∈ idle ->
     MemoryStorage.data (storage m') !! status_key T = Some (VStr "stopped")) /\
  (forall k, MemoryStorage.data (storage m) !! k = Some (VStr "stopped") ->
     MemoryStorage.data (storage m') !! k = Some (VStr "stopped")) /\
  (forall k, (forall T, T ∈ idle -> k <> status_key T) ->
     MemoryStorage.data (storage m') !! k = MemoryStorage.data (storage m) !! k).
Proof.
  induction idle as [|x idle IH]; intros m; cbn zeta; cbn [stop_all fold_left].
  - repeat split; try done. by intros T ?%elem_of_nil.
  - fold (stop_all (stop_bot m x now (td x)).2 idle now td).
    destruct (IH (stop_bot m x now (td x)).2) as (I1 & I2 & I3 & I4 & I5).
    split; [by rewrite I1, stop_bot_expiry|]. split; [by rewrite I2, stop_bot_stats|].
    split; [|split].
    + intros T [->|HT]%elem_of_cons; [|by apply I3]. apply I4, stop_bot_status.
    + intros k Hk. apply I4. rewrite stop_bot_data. by destruct (decide _).
    + intros k Hk. rewrite I5 by (intros T HT; apply Hk; by right).
      rewrite stop_bot_data, decide_False; [done|].
      intros H. by apply (Hk x); [left|].
Qed.

End ReaperFacts.

(** The statement of [cleanup_memory_pass], for the proofs that follow. *)
Lemma cleanup_memory_pass_aux (m : BotManager.t) (now : Z)
    (teardown : string -> bool) (mb : Z) :
  (forall T, is_Some (BotManager.bots m !! T) ->
     exists n, (MemoryStorage.get (BotManager.storage m) (bot_key T "last_active")
                  (VNum 0) now).1 = VNum n) ->
  let r := BotManager.cleanup_memory m now teardown (Some mb) in
  let st' := BotManager.storage r.2 in
  r.1 = true /\
  (forall T app n, BotManager.bots m !! T = Some app ->
     (MemoryStorage.get (BotManager.storage m) (bot_key T "last_active")
        (VNum 0) now).1 = VNum n ->
     BotManager.bots r.2 !! T
     = (if Z.ltb n (now - 3600) && teardown T then None else Some app) /\
     (n < now - 3600 ->
      MemoryStorage.expired (BotManager.storage m) (status_key T) now = false ->
      MemoryStorage.data st' !! status_key T = Some (VStr "stopped"))) /\
  (forall key, MemoryStorage.expired st' key now = false) /\
  bots_active (MemoryStorage.stats st') = Z.of_nat (size (BotManager.bots r.2)) /\
  memory_usage (MemoryStorage.stats st') = mb /\
  last_cleanup (MemoryStorage.stats st') = now.
Proof.
  intros Hnum r st'. subst st' r. unfold BotManager.cleanup_memory.
  destruct (BotManager.inactive_bots _ (BotManager.storage m) (now - 3600) now)
    as [[idle|] st1] eqn:Hi; apply inactive_bots_spec in Hi as [Hs Hi].
  2:{ exfalso. destruct Hi as (T & HT & Hnone). apply bots_tokens in HT.
      destruct (Hnum T HT) as [n Hn]. by rewrite Hn in Hnone. }
  destruct Hi as [_ Hidle]. cbn [fst snd].
  set (m1 := BotManager.stop_all (BotManager.with_storage m st1) idle now teardown).
  destruct (stop_all_storage now teardown idle (BotManager.with_storage m st1))
    as (He & _ & Hstop & _ & _). fold m1 in He, Hstop. cbn in He.
  pose proof (cleanup_expired_sweeps_aux (BotManager.storage m1) now) as Hsw.
  cbn zeta in Hsw.
  split; [done|]. split; [|split].
  - intros T app n Hb Hn. cbn [BotManager.bots BotManager.with_storage
      BotManager.storage MemoryStorage.data].
    assert (Hin : T ∈ idle <-> n < now - 3600).
    { rewrite Hidle, bots_tokens. split.
      - intros (_ & n' & Hn' & Hlt). rewrite Hn in Hn'. by injection Hn' as ->.
      - intros Hlt. split; [by eexists|]. by exists n. }
    split.
    + fold m1. unfold m1. rewrite stop_all_bots. cbn [BotManager.bots
        BotManager.with_storage]. rewrite Hb.
      destruct (Z.ltb_spec n (now - 3600)) as [Hlt|Hge].
      * destruct (decide (T ∈ idle)) as [_|Hn']; [|by apply Hin in Hlt].
        by destruct (teardown T).
      * destruct (decide (T ∈ idle)) as [Hin'|_]; [|done]. apply Hin in Hin'. lia.
    + intros Hlt Hx. destruct (Hsw (status_key T)) as (_ & -> & _).
      assert (Hx1 : MemoryStorage.expired (BotManager.storage m1) (status_key T) now
                    = false).
      { unfold MemoryStorage.expired. rewrite He.
        destruct (MemoryStorage.expired st1 (status_key T) now) eqn:Hx1; [|done].
        apply (swept_expired _ _ _ _ Hs) in Hx1. congruence. }
      rewrite Hx1. apply Hstop. by apply Hin.
  - intros key. cbn [BotManager.storage BotManager.with_storage].
    destruct (Hsw key) as (Hx & _ & _). exact Hx.
  - done.
Qed.





(** * Runs of the program *)

Section StoreSound.

Import MemoryStorage.

Implicit Types (st : MemoryStorage.t) (key T : string) (now : Z).

Lemma store_sound_init now : store_sound (init now).
Proof.
  split; [apply well_formed_init|]. split; [|done].
  intros k [e He]. cbn in He. by rewrite lookup_empty in He.
Qed.

Lemma store_sound_set_plain st key v now :
  store_sound st -> store_sound (set st key v None now).
Proof. intros (H1 & H2 & H3). split; [by apply well_formed_set|]. by split. Qed.

Lemma store_sound_set_update st T v ttl now :
  store_sound st -> store_sound (set st (bot_key T "last_update") v ttl now).
Proof.
  intros (H1 & H2 & H3). split; [by apply well_formed_set|]. split; [|done].
  intros k Hk. cbn in Hk. destruct ttl as [n|]; [destruct (Z.eqb n 0)|]; try by apply H2.
  destruct (decide (bot_key T "last_update" = k)) as [<-|Hne]; [by exists T|].
  rewrite lookup_insert_ne in Hk by done. by apply H2.
Qed.

Lemma store_sound_swept now st st' : swept now st st' -> store_sound st -> store_sound st'.
Proof.
  intros Hs (H1 & H2 & H3). split; [by eapply swept_well_formed|]. split.
  - intros k Hk. apply H2. destruct (proj2 Hs k) as [[_ <-]|(_ & _ & He)]; [done|].
    rewrite He in Hk. by destruct Hk.
  - by rewrite (proj1 Hs).
Qed.

Lemma store_sound_get st key dflt now : store_sound st -> store_sound (get st key dflt now).2.
Proof. apply store_sound_swept with (now := now), swept_get. Qed.

Lemma store_sound_delete st key : store_sound st -> store_sound (delete st key).
Proof.
  intros (H1 & H2 & H3). split; [by apply well_formed_delete|]. split; [|done].
  intros k Hk. apply H2. rewrite delete_expiry in Hk. by destruct (decide _); [destruct Hk|].
Qed.

Lemma store_sound_fold_delete ks : forall st,
  store_sound st -> store_sound (fold_left delete ks st).
Proof.
  induction ks as [|k ks IH]; intros st H; [done|]. cbn. by apply IH, store_sound_delete.
Qed.

Lemma store_sound_incr str_int st key now :
  store_sound st -> store_sound (incr str_int st key now).2.
Proof.
  intros H. unfold incr, incr_read.
  pose proof (store_sound_get st key (VNum 0) now H) as Hg.
  destruct (get st key (VNum 0) now) as [v s1]. cbn in Hg.
  destruct (py_int str_int v); [by apply store_sound_set_plain | done].
Qed.

Lemma store_sound_cleanup_expired st now :
  store_sound st -> store_sound (cleanup_expired st now).2.
Proof.
  intros H. unfold cleanup_expired. cbn [snd].
  set (old := (List.filter _ _).*1).
  destruct (store_sound_fold_delete old st H) as (H1 & H2 & H3).
  split; [done|]. by split.
Qed.

(** A status key, a [last_active] key and the counter have no expiry
    instant in a sound store. *)
Lemma store_sound_no_expiry st key :
  store_sound st ->
  (forall T, key <> bot_key T "last_update") ->
  expiry st !! key = None /\ forall now, expired st key now = false.
Proof.
  intros (_ & H2 & _) Hk.
  assert (He : expiry st !! key = None).
  { destruct (expiry st !! key) as [e|] eqn:He; [|done].
    destruct (H2 key) as [T HT]; [by eexists|]. by apply Hk in HT. }
  split; [done|]. intros now. unfold expired. by rewrite He.
Qed.

End StoreSound.

Section Consistency.

Import BotManager.

Variable str_int : string -> option Z.

Implicit Types (m : BotManager.t) (st : MemoryStorage.t) (T token : string) (now : Z).

Lemma consistent_init now : consistent (init now).
Proof.
  split; [apply store_sound_init|]. intros T i H. cbn in H. by rewrite lookup_empty in H.
Qed.

Lemma consistent_with_storage m st :
  consistent m -> store_sound st -> consistent (with_storage m st).
Proof. intros [_ H] Hs. by split. Qed.

Lemma consistent_set_status m token word now :
  consistent m -> consistent (set_status m token word now).
Proof.
  intros [Hs Ht]. split; [by apply store_sound_set_plain | done].
Qed.

Lemma cancel_task_token ts i j :
  task_token <$> cancel_task ts i !! j = task_token <$> ts !! j.
Proof.
  unfold cancel_task. destruct (ts !! i) as [tk|] eqn:Hi; [|done].
  destruct (decide (i = j)) as [<-|Hne].
  - rewrite list_lookup_insert_eq by (by eapply lookup_lt_Some). rewrite Hi. cbn.
    by destruct tk as [a b []].
  - by rewrite list_lookup_insert_ne.
Qed.

Lemma tasks_sound_same_tokens m m' :
  (forall T i, bot_tasks m' !! T = Some i -> bot_tasks m !! T = Some i) ->
  (forall j, task_token <$> tasks m' !! j = task_token <$> tasks m !! j) ->
  tasks_sound m -> tasks_sound m'.
Proof.
  intros Hb Ht H T i Hi. destruct (H T i (Hb T i Hi)) as (tk & Htk & Htok).
  specialize (Ht i). rewrite Htk in Ht. cbn in Ht.
  destruct (tasks m' !! i) as [tk'|]; [|done]. injection Ht as Ht.
  exists tk'. split; [done|]. congruence.
Qed.

Lemma consistent_stop_bot m token now td :
  consistent m -> consistent (stop_bot m token now td).2.
Proof.
  intros H. unfold stop_bot.
  destruct (bots m !! token); [destruct td|]; cbn [snd];
    try by apply consistent_set_status.
  apply consistent_set_status. destruct H as [Hs Ht]. split; [done|].
  eapply tasks_sound_same_tokens; [| |exact Ht]; cbn.
  - intros T i Hi. apply lookup_delete_Some in Hi as [_ Hi]. done.
  - intros j. destruct (bot_tasks m !! token); [apply cancel_task_token | done].
Qed.

Lemma consistent_start_bot m token code now td sp :
  consistent m -> consistent (start_bot str_int m token code now td sp).2.
Proof.
  intros H. unfold start_bot.
  set (m1 := match bots m !! token with Some _ => _ | None => m end).
  assert (H1 : consistent m1).
  { subst m1. destruct (bots m !! token); [by apply consistent_stop_bot | done]. }
  destruct H1 as [Hs Ht].
  match goal with |- context [MemoryStorage.incr str_int ?s ?k now] =>
    assert (Hs4 : store_sound s) by (by repeat apply store_sound_set_plain);
    pose proof (store_sound_incr str_int s k now Hs4) as Hs5;
    destruct (MemoryStorage.incr str_int s k now) as [[n|] st5] end; cbn [snd] in *.
  - destruct sp; cbn [snd].
    + split; [exact Hs5|]. intros T i Hi. cbn in *.
      destruct (decide (token = T)) as [<-|Hne].
      * rewrite lookup_insert_eq in Hi. injection Hi as <-.
        exists (mkTask token code Scheduled). split; [|done].
        rewrite lookup_app_r by lia. by rewrite Nat.sub_diag.
      * rewrite lookup_insert_ne in Hi by done.
        destruct (Ht T i Hi) as (tk & Htk & Htok). exists tk. split; [|done].
        by apply lookup_app_l_Some.
    + apply consistent_set_status. by split.
  - apply consistent_set_status. by split.
Qed.

Lemma consistent_run_bot m i launch now :
  consistent m -> consistent (run_bot m i launch now).
Proof.
  intros H. unfold run_bot. destruct (tasks m !! i) as [tk|] eqn:Hi; [|done].
  assert (Hins : forall st (tk' : task), task_token tk' = task_token tk ->
            forall j, task_token <$> <[i := tk']> (tasks m) !! j
                      = task_token <$> tasks m !! j).
  { intros _ tk' Htok j. destruct (decide (i = j)) as [<-|Hne].
    - rewrite list_lookup_insert_eq by (by eapply lookup_lt_Some). rewrite Hi.
      cbn. by rewrite Htok.
    - by rewrite list_lookup_insert_ne. }
  destruct H as [Hs Ht].
  destruct (task_status tk); [destruct launch| |done|done].
  - split; [done|]. eapply tasks_sound_same_tokens; [| |exact Ht]; cbn; [done|].
    by apply (Hins (storage m)).
  - apply consistent_set_status. split; [done|].
    eapply tasks_sound_same_tokens; [| |exact Ht]; cbn; [done|].
    by apply (Hins (storage m)).
  - destruct (bots m !! task_token tk); [done|]. split; [done|].
    eapply tasks_sound_same_tokens; [| |exact Ht]; cbn; [done|].
    by apply (Hins (storage m)).
Qed.

Lemma consistent_delete_bot m token now td :
  consistent m -> consistent (delete_bot m token now td).2.
Proof.
  intros H. unfold delete_bot. cbn [snd].
  pose proof (consistent_stop_bot m token now td H) as H1.
  apply consistent_with_storage; [done|].
  apply store_sound_delete, store_sound_fold_delete, H1.
Qed.

Lemma consistent_get_bot_info m token now :
  consistent m -> consistent (get_bot_info m token now).2.
Proof.
  intros H. destruct (get_bot_info_reads_aux m token now) as (Hb & Hbt & Ht & Hs & _).
  destruct H as [Hst Hts]. split.
  - by eapply store_sound_swept.
  - intros T i Hi. rewrite Hbt in Hi. rewrite Ht. by apply Hts.
Qed.

Lemma all_bots_loop_swept now ks : forall st r st',
  all_bots_loop ks st now = (r, st') -> MemoryStorage.swept now st st'.
Proof.
  induction ks as [|k ks IH]; intros st r st' H; cbn [all_bots_loop] in H.
  - injection H as _ <-. apply swept_refl.
  - destruct (split colon k !! 1%nat) as [tok|]; [|injection H as _ <-; apply swept_refl].
    pose proof (swept_get now st k VNone) as H1.
    destruct (MemoryStorage.get st k VNone now) as [status st1]. cbn [snd] in H1.
    pose proof (swept_get now st1 (bot_key tok "created_at") VNone) as H2.
    destruct (MemoryStorage.get st1 (bot_key tok "created_at") VNone now)
      as [created st2]. cbn [snd] in H2.
    destruct (all_bots_loop ks st2 now) as [r3 st3] eqn:Hr.
    injection H as _ <-. apply IH in Hr.
    eapply swept_trans; [|exact Hr]. by eapply swept_trans.
Qed.

Lemma consistent_get_all_bots m now :
  consistent m -> consistent (get_all_bots m now).2.
Proof.
  intros H. unfold get_all_bots.
  destruct (all_bots_loop _ (storage m) now) as [r st] eqn:Hl. cbn [snd].
  apply consistent_with_storage; [done|].
  eapply store_sound_swept; [by eapply all_bots_loop_swept | apply H].
Qed.

Lemma store_sound_ping_bot st token now :
  store_sound st -> store_sound (ping_bot st token now).
Proof. intros H. unfold ping_bot. by apply store_sound_get, store_sound_set_plain. Qed.

Lemma consistent_ping m now : consistent m -> consistent (ping_active_bots m now).
Proof.
  intros H. unfold ping_active_bots. apply consistent_with_storage; [done|].
  destruct H as [Hs _]. revert Hs. generalize (storage m).
  induction ((map_to_list (bots m)).*1) as [|x l IH]; intros st Hs; [done|].
  cbn. by apply IH, store_sound_ping_bot.
Qed.

Lemma consistent_stop_all now td idle : forall m,
  consistent m -> consistent (stop_all m idle now td).
Proof.
  induction idle as [|x idle IH]; intros m H; [done|].
  cbn [stop_all fold_left]. by apply IH, consistent_stop_bot.
Qed.

Lemma consistent_cleanup_memory m now td mem :
  consistent m -> consistent (cleanup_memory m now td mem).2.
Proof.
  intros H. unfold cleanup_memory.
  destruct (inactive_bots _ (storage m) (now - 3600) now) as [[idle|] st1] eqn:Hi;
    apply inactive_bots_spec in Hi as [Hs _]; cbn [snd].
  - assert (H1 : consistent (stop_all (with_storage m st1) idle now td)).
    { apply consistent_stop_all, consistent_with_storage; [done|].
      eapply store_sound_swept; [done | apply H]. }
    pose proof (store_sound_cleanup_expired _ now (proj1 H1)) as H2.
    destruct mem as [mb|]; cbn [snd]; apply consistent_with_storage; done.
  - apply consistent_with_storage; [done|].
    eapply store_sound_swept; [done | apply H].
Qed.

Lemma consistent_webhook m token body now :
  consistent m -> consistent (webhook_handler m token body now).2.
Proof.
  intros H. unfold webhook_handler.
  pose proof (store_sound_get (storage m) (status_key token) VNone now (proj1 H)) as Hg.
  destruct (MemoryStorage.get (storage m) (status_key token) VNone now) as [status st1].
  cbn [snd] in Hg. destruct (bool_decide _); [destruct body|]; cbn [snd];
    apply consistent_with_storage; try done.
  - by apply store_sound_set_update, store_sound_set_plain.
  - by apply store_sound_set_plain.
Qed.

Lemma consistent_upload m token code now td sp :
  consistent m -> consistent (upload_bot str_int m token code now td sp).2.
Proof.
  intros H. unfold upload_bot. destruct (_ || _); [done|].
  destruct (negb _); [done|]. by apply consistent_start_bot.
Qed.

Lemma consistent_apply_event m x :
  consistent m -> consistent (apply_event str_int m x).
Proof.
  intros H. destruct x as [now []]; cbn.
  - by apply consistent_upload.
  - by apply consistent_start_bot.
  - by apply consistent_stop_bot.
  - by apply consistent_delete_bot.
  - by apply consistent_get_bot_info.
  - by apply consistent_get_all_bots.
  - by apply consistent_run_bot.
  - by apply consistent_ping.
  - by apply consistent_cleanup_memory.
  - by apply consistent_webhook.
Qed.

Lemma consistent_fold evs : forall m,
  consistent m -> consistent (fold_left (apply_event str_int) evs m).
Proof.
  induction evs as [|x evs IH]; intros m H; [done|].
  cbn. by apply IH, consistent_apply_event.
Qed.

End Consistency.

(** The statement of [run_events_consistent], for the proofs that follow. *)
Lemma run_events_consistent_aux (str_int : string -> option Z) (start : Z)
    (evs : list (Z * event)) :
  consistent (run_events str_int start evs).
Proof. apply consistent_fold, consistent_init. Qed.

(** X21. Every state of a run of the program from a fresh process is
    consistent: each key with an expiry instant is a key of [data] and is a
    key [bot:T:last_update]; each entry of [bot_tasks] names a task created
    for its token; the counter [bots_created] of [stats] is 0. *)
Theorem run_events_consistent (str_int : string -> option Z) (start : Z)
    (evs : list (Z * event)) :
  consistent (run_events str_int start evs).
Proof. exact (run_events_consistent_aux str_int start evs). Qed.

Lemma run_events_consistent_witness :
  consistent (run_events no_numeral 0
    [(1, Upload "1:a" "pass" true true); (2, TaskTurn 0 (Some 7%nat));
     (3, Webhook "1:a" (Some "{}")); (4, Stop "1:a" true)]).
Proof. exact (run_events_consistent no_numeral 0 _). Defined.

(** X22. In every state of a run, the status query after [stop_bot] answers
    [stopped], at whatever instant it is made: no status key ever carries
    an expiry instant. *)
Theorem stop_bot_answers_stopped (str_int : string -> option Z) (start : Z)
    (evs : list (Z * event)) (token : string) (now later : Z) (teardown_ok : bool) :
  let m := run_events str_int start evs in
  MemoryStorage.expiry (BotManager.storage m) !! status_key token = None /\
  BotManager.info_status
    (BotManager.get_bot_info (BotManager.stop_bot m token now teardown_ok).2 token later).1
  = VStr "stopped".
Proof.
  intros m.
  destruct (store_sound_no_expiry (BotManager.storage m) (status_key token)) as [He _].
  { apply (run_events_consistent_aux str_int start evs). }
  { intros T. apply status_key_not_update. }
  split; [done|]. by apply stop_bot_status_query.
Qed.

Section CounterFacts.

Import BotManager.

Variable str_int : string -> option Z.

Implicit Types (m : BotManager.t) (st : MemoryStorage.t) (T token : string) (now : Z).

Local Abbreviation counter st := (MemoryStorage.data st !! counter_key).

Lemma counter_unexpired st now :
  store_sound st -> MemoryStorage.expired st counter_key now = false.
Proof. intros H. by apply store_sound_no_expiry. Qed.

Lemma counter_swept now st st' :
  store_sound st -> MemoryStorage.swept now st st' -> counter st' = counter st.
Proof.
  intros Hs [_ H]. destruct (H counter_key) as [[Hd _]|[Hx _]]; [done|].
  by rewrite counter_unexpired in Hx.
Qed.

Lemma counter_not_matched T : contains (bot_key T "*") counter_key = false.
Proof.
  destruct (contains (bot_key T "*") counter_key) eqn:Hc; [|done]. exfalso.
  apply contains_append in Hc as (a & b & Hc).
  apply (f_equal (split colon)) in Hc.
  change (split colon counter_key) with ["stats"; "bots_created"] in Hc.
  replace (a ++ bot_key T "*" ++ b)
    with ((a ++ "bot") ++ String colon (T ++ String colon (String "*" b))) in Hc
    by (unfold bot_key; by rewrite <- !append_assoc).
  rewrite !split_append in Hc.
  destruct (split_cons colon (a ++ "bot")) as (x & xs & Hx).
  destruct (split_cons colon T) as (y & ys & Hy).
  destruct (split_cons colon (String "*" b)) as (z & zs & Hz).
  rewrite Hx, Hy, Hz in Hc.
  apply (f_equal length) in Hc. cbn in Hc. rewrite !length_app in Hc. cbn in Hc.
  rewrite ?length_app in Hc. cbn in Hc. lia.
Qed.

Lemma counter_stop_bot m token now td :
  counter (storage (stop_bot m token now td).2) = counter (storage m).
Proof. by rewrite stop_bot_data, decide_False. Qed.

Lemma counter_start_bot m token code now td sp c :
  consistent m ->
  default (VNum 0) (counter (storage m)) = VNum c ->
  counter (storage (start_bot str_int m token code now td sp).2) = Some (VNum (c + 1)).
Proof.
  intros Hm Hc. unfold start_bot.
  pose proof (start_bot_first_step m token now td counter_key) as [He Hd].
  cbn zeta in He, Hd. specialize (Hd ltac:(done)).
  set (m1 := match bots m !! token with Some _ => _ | None => m end) in *.
  set (st4 := MemoryStorage.set (MemoryStorage.set (MemoryStorage.set
                (MemoryStorage.set (storage m1) _ _ _ _) _ _ _ _) _ _ _ _) _ _ _ _).
  assert (H4 : MemoryStorage.get st4 counter_key (VNum 0) now = (VNum c, st4)).
  { rewrite get_fresh.
    - f_equal. rewrite <- Hc. f_equal. subst st4. cbn. by rewrite !lookup_insert_ne.
    - unfold MemoryStorage.expired. subst st4. cbn. rewrite He.
      by destruct (store_sound_no_expiry (storage m) counter_key (proj1 Hm)) as [-> _]. }
  unfold MemoryStorage.incr, MemoryStorage.incr_read. rewrite H4. cbn [MemoryStorage.py_int].
  destruct sp; cbn; [apply lookup_insert_eq|].
  rewrite lookup_insert_ne by done. apply lookup_insert_eq.
Qed.

Lemma counter_delete_bot m token now td :
  counter (storage (delete_bot m token now td).2) = counter (storage m).
Proof.
  destruct (delete_bot_effect_aux m token now td) as (_ & _ & H & _).
  rewrite H, counter_not_matched. cbn. apply counter_stop_bot.
Qed.

Lemma counter_run_bot m i launch now :
  counter (storage (run_bot m i launch now)) = counter (storage m).
Proof.
  unfold run_bot. destruct (tasks m !! i) as [tk|]; [|done].
  destruct (task_status tk); [destruct launch| |done|done]; cbn; try done.
  - by rewrite lookup_insert_ne.
  - by destruct (bots m !! task_token tk).
Qed.

Lemma counter_ping m now :
  counter (storage (ping_active_bots m now)) = counter (storage m).
Proof.
  unfold ping_active_bots. cbn [storage with_storage]. generalize (storage m).
  induction ((map_to_list (bots m)).*1) as [|x l IH]; intros st; [done|].
  cbn [fold_left]. rewrite IH, ping_bot_data. by rewrite !decide_False.
Qed.

Lemma counter_cleanup_memory m now td mem :
  consistent m -> counter (storage (cleanup_memory m now td mem).2) = counter (storage m).
Proof.
  intros Hm. unfold cleanup_memory.
  destruct (inactive_bots _ (storage m) (now - 3600) now) as [[idle|] st1] eqn:Hi;
    apply inactive_bots_spec in Hi as [Hs _]; cbn [snd].
  - pose proof (counter_swept now _ _ (proj1 Hm) Hs) as H1.
    set (m1 := stop_all (with_storage m st1) idle now td).
    assert (Hc1 : consistent m1).
    { apply consistent_stop_all, consistent_with_storage; [done|].
      eapply store_sound_swept; [done | apply Hm]. }
    assert (H2 : counter (storage m1) = counter st1).
    { destruct (stop_all_storage now td idle (with_storage m st1)) as (_ & _ & _ & _ & H).
      by apply H. }
    assert (H3 : counter (MemoryStorage.cleanup_expired (storage m1) now).2
                 = counter (storage m1)).
    { rewrite cleanup_expired_data. by rewrite counter_unexpired by apply Hc1. }
    trans (counter (MemoryStorage.cleanup_expired (storage m1) now).2);
      [by destruct mem|]. by rewrite H3, H2.
  - exact (counter_swept now _ _ (proj1 Hm) Hs).
Qed.

Lemma counter_webhook m token body now :
  consistent m -> counter (storage (webhook_handler m token body now).2)
                  = counter (storage m).
Proof.
  intros Hm. unfold webhook_handler.
  pose proof (swept_get now (storage m) (status_key token) VNone) as Hs.
  destruct (MemoryStorage.get (storage m) (status_key token) VNone now) as [status st1].
  cbn [snd] in Hs. pose proof (counter_swept now _ _ (proj1 Hm) Hs) as H1.
  destruct (bool_decide _); [destruct body|]; cbn; [| |done];
    by rewrite !lookup_insert_ne.
Qed.

Lemma counter_apply_event m x c :
  consistent m ->
  default (VNum 0) (counter (storage m)) = VNum c ->
  default (VNum 0) (counter (storage (apply_event str_int m x)))
  = VNum (c + (if reaches_incr x.2 then 1 else 0)).
Proof.
  intros Hm Hc. destruct x as [now [token code td sp|token code td sp|token td|token td
    |token| |i launch| |td mem|token body]]; cbn [apply_event fst snd reaches_incr].
  - unfold upload_bot.
    destruct (String.eqb token "" || String.eqb code ""); cbn [negb andb];
      [by rewrite Z.add_0_r|].
    destruct (has_char colon token); cbn [negb]; [|by rewrite Z.add_0_r].
    by rewrite (counter_start_bot _ _ _ _ _ _ c).
  - by rewrite (counter_start_bot _ _ _ _ _ _ c).
  - by rewrite counter_stop_bot, Z.add_0_r.
  - by rewrite counter_delete_bot, Z.add_0_r.
  - destruct (get_bot_info_reads_aux m token now) as (_ & _ & _ & Hs & _).
    by rewrite (counter_swept now _ _ (proj1 Hm) Hs), Z.add_0_r.
  - unfold get_all_bots.
    destruct (all_bots_loop _ (storage m) now) as [r st] eqn:Hl. cbn [snd storage
      with_storage].
    by rewrite (counter_swept now _ _ (proj1 Hm) (all_bots_loop_swept _ _ _ _ _ Hl)),
      Z.add_0_r.
  - by rewrite counter_run_bot, Z.add_0_r.
  - by rewrite counter_ping, Z.add_0_r.
  - by rewrite counter_cleanup_memory, Z.add_0_r.
  - by rewrite counter_webhook, Z.add_0_r.
Qed.

Lemma counter_fold evs : forall m c,
  consistent m ->
  default (VNum 0) (counter (storage m)) = VNum c ->
  default (VNum 0) (counter (storage (fold_left (apply_event str_int) evs m)))
  = VNum (c + Z.of_nat (count_starts evs)).
Proof.
  induction evs as [|x evs IH]; intros m c Hm Hc; cbn [fold_left].
  - by rewrite Z.add_0_r.
  - rewrite (IH _ (c + (if reaches_incr x.2 then 1 else 0))).
    + f_equal. unfold count_starts. cbn [List.filter].
      destruct (reaches_incr x.2); cbn [length]; lia.
    + by apply consistent_apply_event.
    + by apply counter_apply_event.
Qed.

End CounterFacts.

(** X23. In every run from a fresh process the counter stored under
    ["stats:bots_created"], read with the default 0, is the number of calls
    of [start_bot] made so far (direct calls and uploads that pass the
    checks, whatever their result), while [get_stats] reports 0 created
    bots. *)
Theorem stored_counter_counts_starts (str_int : string -> option Z) (start : Z)
    (evs : list (Z * event)) :
  let m := run_events str_int start evs in
  default (VNum 0) (MemoryStorage.data (BotManager.storage m) !! counter_key)
    = VNum (Z.of_nat (count_starts evs)) /\
  sv_bots_created (get_stats m) = 0.
Proof.
  intros m. split.
  - apply (counter_fold str_int evs (BotManager.init start) 0); [|done].
    apply consistent_init.
  - apply (run_events_consistent_aux str_int start evs).
Qed.

Section RestartFacts.

Import BotManager.

Lemma filter_nil_lookup {A} (f : A -> bool) (l : list A) :
  (forall j x, l !! j = Some x -> f x = false) -> List.filter f l = [].
Proof.
  induction l as [|a l IH]; intros H; [done|]. cbn.
  rewrite (H 0%nat a) by done. apply IH. intros j x Hj. by apply (H (S j)).
Qed.

Lemma cancel_task_length ts i : length (cancel_task ts i) = length ts.
Proof.
  unfold cancel_task. destruct (ts !! i); [by rewrite length_insert | done].
Qed.

End RestartFacts.

(** X24. The restart that the guard of [start_bot] does see: when the token
    has a handle, [bot_tasks] names its task, no other task of the token is
    alive, the teardown goes through and [start_bot] returns [True], then
    the old task is cancelled and the new task is the only live task of the
    token; the handle is gone until the new task registers one. *)
Theorem start_bot_replaces_instance (str_int : string -> option Z)
    (m : BotManager.t) (token code : string) (now : Z) (app i : nat) :
  BotManager.bots m !! token = Some app ->
  BotManager.bot_tasks m !! token = Some i ->
  (forall j tk, BotManager.tasks m !! j = Some tk ->
     BotManager.task_token tk = token -> BotManager.live tk = true -> j = i) ->
  let r := BotManager.start_bot str_int m token code now true true in
  r.1 = true ->
  BotManager.live_tasks r.2 token = [BotManager.mkTask token code BotManager.Scheduled] /\
  BotManager.bot_tasks r.2 !! token = Some (length (BotManager.tasks m)) /\
  BotManager.bots r.2 !! token = None.
Proof.
  intros Hb Hbt Honly r. subst r. unfold BotManager.start_bot. rewrite Hb.
  set (m1 := (BotManager.stop_bot m token now true).2).
  assert (Ht1 : BotManager.tasks m1 = BotManager.cancel_task (BotManager.tasks m) i).
  { subst m1. unfold BotManager.stop_bot. rewrite Hb. cbn. by rewrite Hbt. }
  assert (Hb1 : BotManager.bots m1 !! token = None).
  { subst m1. unfold BotManager.stop_bot. rewrite Hb. cbn. apply lookup_delete_eq. }
  match goal with |- context [MemoryStorage.incr str_int ?s ?k now] =>
    destruct (MemoryStorage.incr str_int s k now) as [[n|] st5] end; [|done].
  intros _. cbn [snd]. split; [|split].
  - unfold BotManager.live_tasks. cbn [BotManager.tasks]. rewrite List.filter_app.
    rewrite filter_nil_lookup.
    + cbn. by rewrite String.eqb_refl.
    + intros j tk Hj. rewrite Ht1 in Hj. unfold BotManager.cancel_task in Hj.
      destruct (BotManager.tasks m !! i) as [tk0|] eqn:Hi.
      * destruct (decide (i = j)) as [<-|Hne].
        -- rewrite list_lookup_insert_eq in Hj by (by eapply lookup_lt_Some).
           injection Hj as <-. by rewrite cancel_not_live, andb_false_r.
        -- rewrite list_lookup_insert_ne in Hj by done.
           destruct (String.eqb_spec (BotManager.task_token tk) token) as [Htok|];
             [|done].
           destruct (BotManager.live tk) eqn:Hl; [|done].
           exfalso. apply Hne. symmetry. by apply (Honly j tk).
      * destruct (String.eqb_spec (BotManager.task_token tk) token) as [Htok|];
          [|done].
        destruct (BotManager.live tk) eqn:Hl; [|done].
        exfalso. rewrite (Honly j tk Hj Htok Hl) in Hj. congruence.
  - cbn. rewrite lookup_insert_eq, Ht1. by rewrite cancel_task_length.
  - done.
Qed.

Lemma start_bot_replaces_instance_witness :
  let m := BotManager.run_bot
             (BotManager.start_bot no_numeral (BotManager.init 0) "1:a" "pass" 1 true true).2
             0 (Some 7%nat) 2 in
  BotManager.live_tasks (BotManager.start_bot no_numeral m "1:a" "new" 3 true true).2 "1:a"
  = [BotManager.mkTask "1:a" "new" BotManager.Scheduled].
Proof.
  intros m.
  refine (proj1 (start_bot_replaces_instance no_numeral m "1:a" "new" 3 7 0
                   eq_refl eq_refl _ eq_refl)).
  intros [|[|j]] tk Hj; [done| |]; discriminate Hj.
Defined.

(** X25. In every state of a run, a pass of [cleanup_memory] that follows
    [ping_active_bots] by at most 3600 ticks stops no bot: every handle is
    kept, whatever the earlier activity of the bots. *)
Theorem pinged_bots_survive_cleanup (str_int : string -> option Z) (start : Z)
    (evs : list (Z * event)) (now now' : Z) (teardown : string -> bool) (mb : Z) :
  now' - 3600 <= now ->
  let m := run_events str_int start evs in
  let r := BotManager.cleanup_memory (BotManager.ping_active_bots m now) now'
             teardown (Some mb) in
  r.1 = true /\ BotManager.bots r.2 = BotManager.bots m.
Proof.
  intros Hle m r.
  set (m1 := BotManager.ping_active_bots m now) in *.
  assert (Hc1 : consistent m1).
  { apply consistent_ping, consistent_fold, consistent_init. }
  assert (Hact : forall T, is_Some (BotManager.bots m1 !! T) ->
    (MemoryStorage.get (BotManager.storage m1) (bot_key T "last_active") (VNum 0) now').1
    = VNum now).
  { intros T HT.
    destruct (ping_active_bots_refreshes_aux m now) as (_ & _ & _ & _ & Hla & _).
    rewrite get_fresh.
    - cbn. fold m1 in Hla. by rewrite Hla.
    - apply store_sound_no_expiry; [apply Hc1|]. intros T'. apply active_key_not_update. }
  destruct (cleanup_memory_pass_aux m1 now' teardown mb) as (Hr & Hb & _).
  { intros T HT. exists now. by apply Hact. }
  subst r. split; [done|]. apply map_eq. intros T.
  destruct (BotManager.bots m !! T) as [app|] eqn:HT.
  - destruct (Hb T app now) as [Hb' _]; [done|apply Hact; by eexists|].
    rewrite Hb'. by rewrite (proj2 (Z.ltb_ge _ _)).
  - destruct (BotManager.bots (BotManager.cleanup_memory m1 now' teardown (Some mb)).2
                !! T) as [app|] eqn:HT'; [|done].
    exfalso. unfold BotManager.cleanup_memory in HT'.
    destruct (BotManager.inactive_bots _ (BotManager.storage m1) (now' - 3600) now')
      as [[idle|] st1]; cbn in HT'.
    + rewrite stop_all_bots in HT'. cbn in HT'. rewrite HT in HT'.
      by destruct (decide _); [destruct (teardown T)|].
    + congruence.
Qed.

Lemma pinged_bots_survive_cleanup_witness :
  let evs := [(1, Upload "1:a" "pass" true true); (2, TaskTurn 0 (Some 7%nat))] in
  BotManager.bots
    (BotManager.cleanup_memory
       (BotManager.ping_active_bots (run_events no_numeral 0 evs) 5000) 8000
       (fun _ => true) (Some 50)).2 !! "1:a" = Some 7%nat.
Proof.
  intros evs.
  destruct (pinged_bots_survive_cleanup no_numeral 0 evs 5000 8000 (fun _ => true) 50)
    as [_ H]; [lia|].
  etrans; [exact (f_equal (fun b => b !! "1:a") H) | reflexivity].
Defined.
